(** * The opportunity pipeline of [src/ai_analyzer.py]

    A shallow embedding of the two classes of the module, [AIAnalyzer]
    (batch orchestration, response parsing, opportunity construction) and
    [OpportunityDeduplicator] (greedy grouping by similarity to a seed, and
    merging of a group), followed by the properties proved about them.

    Conventions of the embedding.
    - A Python [str] is a [string] of bytes (the UTF-8 encoding of the text).
    - A Python [int] is a [Z]; a [datetime] is a [Z] (a point on the time line,
      compared with [<=] as [datetime] values are).
    - A similarity score is the rational number a finite float denotes.
    - An exception is a value of [exn]; a method that can raise returns a
      [result]. A method that reads the clock or calls the analysis backend
      threads a [world] through and lives in [M].
    - [print] calls are logging only and are left out. *)

From stdpp Require Import base option list gmap strings pretty.
From Stdlib Require Import Ascii ZArith QArith Lia Floats.PrimFloat.

Local Open Scope Z_scope.
Set Default Proof Using "Type".

(** ** Exceptions and results *)

Inductive exn :=
| KeyError
| TypeError
| AttributeError
| IndexError
| JSONDecodeError
| ValueError
| RecursionError
| BackendError (msg : string).

Inductive result (A : Type) :=
| Ok (a : A)
| Raise (e : exn).
Global Arguments Ok {A} a.
Global Arguments Raise {A} e.

Global Instance result_ret : MRet result := λ A a, Ok a.
Global Instance result_bind : MBind result := λ A B f r,
  match r with
  | Ok a => f a
  | Raise e => Raise e
  end.

Global Instance result_fmap : FMap result := λ A B f r,
  match r with
  | Ok a => Ok (f a)
  | Raise e => Raise e
  end.

(** [try: body except exn as e: handler e] for a body without effects. *)
Definition try_catch {A} (body : result A) (handler : exn → result A) : result A :=
  match body with
  | Ok a => Ok a
  | Raise e => handler e
  end.

(** [l[i]] on a Python list. *)
Definition index {A} (l : list A) (i : nat) : result A :=
  match l !! i with
  | Some x => Ok x
  | None => Raise IndexError
  end.

(** A [for] loop whose body can raise: the state is threaded from left to
    right and the first exception leaves the loop. *)
Fixpoint for_each {A S} (l : list A) (body : S → A → result S) (s : S) : result S :=
  match l with
  | [] => Ok s
  | x :: l' => s' ← body s x; for_each l' body s'
  end.

(** ** Decoded JSON

    What [json.loads] returns: [None], [bool], [int], [float], [str], [list]
    and [dict] with string keys. *)

Set Warnings "-register-all".

Inductive value :=
| JNull
| JBool (b : bool)
| JInt (n : Z)
| JFloat (x : float)
| JStr (s : string)
| JList (l : list value)
| JDict (d : gmap string value).

(** [v[key]]: only a [dict] can be subscripted with a string. *)
Definition subscript (v : value) (key : string) : result value :=
  match v with
  | JDict d =>
      match d !! key with
      | Some x => Ok x
      | None => Raise KeyError
      end
  | _ => Raise TypeError
  end.

(** [v.get(key, dflt)]: only a [dict] has the method. *)
Definition dict_get (v : value) (key : string) (dflt : value) : result value :=
  match v with
  | JDict d => Ok (default dflt (d !! key))
  | _ => Raise AttributeError
  end.

(** [for x in v]: the elements of a list, the characters of a string, the
    keys of a dict (Python yields them in insertion order, the map in key
    order; every key is a string, on which the loop body of
    [_analyze_single_item] raises whatever the order). *)
Definition iterate (v : value) : result (list value) :=
  match v with
  | JList l => Ok l
  | JStr s => Ok ((λ c, JStr (String c "")) <$> String.list_ascii_of_string s)
  | JDict d => Ok (JStr <$> (map_to_list d).*1)
  | _ => Raise TypeError
  end.

(** ** The regular expression of the response parser

    [re.search(r'\{.*\}', text, re.DOTALL)]: the leftmost match starts at the
    first opening brace that has a closing brace after it, and the greedy
    [.*] (which, with [DOTALL], also crosses newlines) extends it to the last
    closing brace of the text. Both braces are ASCII, so searching the UTF-8
    bytes finds the same region as searching the characters. *)

(** The suffix that starts at the first opening brace. *)
Fixpoint from_first_open (s : string) : option string :=
  match s with
  | "" => None
  | String c s' =>
      if decide (c = "{"%char) then Some s else from_first_open s'
  end.

(** The longest prefix that ends with a closing brace. *)
Fixpoint upto_last_close (s : string) : option string :=
  match s with
  | "" => None
  | String c s' =>
      match upto_last_close s' with
      | Some p => Some (String c p)
      | None => if decide (c = "}"%char) then Some (String c "") else None
      end
  end.

(** [json_match.group(0)], or [None] when there is no match. *)
Definition re_search_braces (text : string) : option string :=
  match from_first_open text with
  | Some (String c rest) => String c <$> upto_last_close rest
  | _ => None
  end.

(** [c in s] for a character. *)
Fixpoint occurs (c : ascii) (s : string) : Prop :=
  match s with
  | "" => False
  | String c' s' => c = c' ∨ occurs c s'
  end.

(** ** The data model *)

Definition datetime := Z.

(** [content_extractor.ContentItem]. *)
Module ContentItem.
Record t := mk {
  id : string;
  content_type : string;
  content : string;
  metadata : gmap string value;
  source_file : string;
  timestamp : option datetime;
  customer_id : option string
}.
End ContentItem.

(** The dataclass [Opportunity]. Python does not enforce the annotations of
    the five fields that are filled from the decoded response ([title],
    [description], [category], [severity] of annotation [str], and [keywords]
    of annotation [List[str]]): the record takes their types as parameters.
    [AIAnalyzer] stores what the response holds, a [value]; the operations
    of [OpportunityDeduplicator] call [str] and [list] methods on them and are
    embedded at the annotated types. *)
Module Opportunity.
Record t (text keys : Type) := mk {
  id : string;
  title : text;
  description : text;
  category : text;
  severity : text;
  frequency : Z;
  sources : list string;
  keywords : keys;
  created_at : datetime;
  updated_at : datetime;
  processing_date : datetime;
  status : string;
  comments : string;
  merged_from : list string
}.
Global Arguments mk {text keys}.
Global Arguments id {text keys}.
Global Arguments title {text keys}.
Global Arguments description {text keys}.
Global Arguments category {text keys}.
Global Arguments severity {text keys}.
Global Arguments frequency {text keys}.
Global Arguments sources {text keys}.
Global Arguments keywords {text keys}.
Global Arguments created_at {text keys}.
Global Arguments updated_at {text keys}.
Global Arguments processing_date {text keys}.
Global Arguments status {text keys}.
Global Arguments comments {text keys}.
Global Arguments merged_from {text keys}.
End Opportunity.

(** An opportunity as the analyzer builds it. *)
Abbreviation RawOpportunity := (Opportunity.t value value).
(** An opportunity whose fields have their annotated types. *)
Abbreviation Opp := (Opportunity.t string (list string)).

(** A double quote, for the texts that contain one. *)
Definition dq : string := String "034"%char "".

(** [s] between double quotes. *)
Definition quoted (s : string) : string := dq +:+ s +:+ dq.

(** [f"{opp.title} {opp.description}"], the text of an opportunity that is
    embedded to compare it with the others. *)
Definition opportunity_text (opp : Opp) : string :=
  Opportunity.title opp +:+ " " +:+ Opportunity.description opp.

(** ** Concrete instances

    A clock, a backend, a decoder, a hash function, the two string methods on
    ASCII text, and a few records, on which the properties of the pipeline are
    exercised at the end of the file. *)

(** [str.isspace()] on an ASCII character. *)
Definition is_space (c : ascii) : bool :=
  let n := N_of_ascii c in
  (((9 <=? n) && (n <=? 13)) || ((28 <=? n) && (n <=? 32)))%N.

Fixpoint lstrip (s : string) : string :=
  match s with
  | "" => ""
  | String c s' => if is_space c then lstrip s' else s
  end.

(** [str.strip()] on ASCII text. *)
Definition ascii_strip (s : string) : string :=
  String.rev (lstrip (String.rev (lstrip s))).

(** [str.lower()] on ASCII text. *)
Fixpoint ascii_lower (s : string) : string :=
  match s with
  | "" => ""
  | String c s' =>
      let n := N_of_ascii c in
      String (if ((65 <=? n) && (n <=? 90))%N then ascii_of_N (n + 32) else c)
             (ascii_lower s')
  end.

(** A clock that advances by one at every reading. *)
Definition tick (w : nat) : datetime * nat := (Z.of_nat w, S w).

(** A hash function: the length of a string, and 0 elsewhere. *)
Definition length_hash (v : value) : Z :=
  match v with
  | JStr s => Z.of_nat (String.length s)
  | _ => 0
  end.

(** The text [{"opportunities": [{"title": "Cobro lento"}]}]. *)
Definition sample_json : string :=
  "{" +:+ quoted "opportunities" +:+ ": [{" +:+ quoted "title" +:+ ": " +:+
  quoted "Cobro lento" +:+ "}]}".

(** A decoder that knows [sample_json] only. *)
Definition sample_json_loads (s : string) : result value :=
  if decide (s = sample_json) then
    Ok (JDict {[ "opportunities" := JList [JDict {[ "title" := JStr "Cobro lento" ]}] ]})
  else Raise JSONDecodeError.

(** A decoder that finds, in every text, a complete record followed by a
    record without a title. *)
Definition untitled_json_loads (s : string) : result value :=
  Ok (JDict {[ "opportunities" :=
                   JList [JDict {[ "title" := JStr "Cobro lento" ]};
                          JDict {[ "description" := JStr "El cobro tarda demasiado" ]}] ]}).

(** A backend that answers every prompt with [sample_json] after a few
    words. *)
Definition sample_backend (prompt : string) (w : nat) : result string * nat :=
  (Ok ("Aquí está el análisis: " +:+ sample_json), w).

(** The consolidated call of a class that does not define the method: the
    attribute lookup fails. *)
Definition missing_method (content_items : list ContentItem.t) (w : nat)
    : result (list RawOpportunity) * nat :=
  (Raise AttributeError, w).

Definition ticket_17 : ContentItem.t :=
  {| ContentItem.id := "ticket_17";
     ContentItem.content_type := "ticket";
     ContentItem.content := "El cobro tarda demasiado.";
     ContentItem.metadata := ∅;
     ContentItem.source_file := "tickets.csv";
     ContentItem.timestamp := None;
     ContentItem.customer_id := Some "C-204" |}.

Definition ticket_18 : ContentItem.t :=
  {| ContentItem.id := "ticket_18";
     ContentItem.content_type := "ticket";
     ContentItem.content := "No puedo pagar con tarjeta.";
     ContentItem.metadata := ∅;
     ContentItem.source_file := "tickets.csv";
     ContentItem.timestamp := None;
     ContentItem.customer_id := None |}.

Definition sample_opportunity
    (id title description severity : string) (frequency : Z) : Opp :=
  {| Opportunity.id := id;
     Opportunity.title := title;
     Opportunity.description := description;
     Opportunity.category := "pain_point";
     Opportunity.severity := severity;
     Opportunity.frequency := frequency;
     Opportunity.sources := ["ticket_17"];
     Opportunity.keywords := ["cobro"];
     Opportunity.created_at := 100;
     Opportunity.updated_at := 100;
     Opportunity.processing_date := 100;
     Opportunity.status := "nueva";
     Opportunity.comments := "";
     Opportunity.merged_from := [] |}.

Definition opp_A : Opp :=
  sample_opportunity "opp_ticket_17_11" "Cobro lento" "El cobro tarda demasiado" "high" 2.
Definition opp_B : Opp :=
  sample_opportunity "opp_ticket_18_10" "Pago lento" "El pago tarda mucho" "critical" 1.
Definition opp_C : Opp :=
  sample_opportunity "opp_ticket_19_17" "Tarjeta rechazada" "" "urgent" 3.
Definition opp_D : Opp :=
  sample_opportunity "opp_ticket_20_12" "Factura doble" "Se cobra dos veces" "blocker" 1.

(** A similarity that puts A and C far apart, and every other pair close. *)
Definition sample_similarity (a b : string) : Q :=
  if decide (a = opportunity_text opp_A ∧ b = opportunity_text opp_C ∨
             a = opportunity_text opp_C ∧ b = opportunity_text opp_A)
  then 1 # 10 else 9 # 10.

(** Ticket 18 as a second extraction gives it: another position in the
    file, a time of extraction, and an empty customer identifier. *)
Definition ticket_18_again : ContentItem.t :=
  {| ContentItem.id := "ticket_18";
     ContentItem.content_type := "ticket";
     ContentItem.content := "No puedo pagar con tarjeta.";
     ContentItem.metadata := {[ "row" := JInt 42 ]};
     ContentItem.source_file := "tickets.csv";
     ContentItem.timestamp := Some 1700000000;
     ContentItem.customer_id := Some "" |}.

(** A progress callback that fails at every call. *)
Definition failing_callback (batch_num total_batches : Z) (w : nat) : result () * nat :=
  (Raise TypeError, w).

(** A record with a title, and a severity that is a number. *)
Definition odd_record : gmap string value :=
  {[ "title" := JStr "Cobro lento"; "severity" := JInt 7 ]}.

(** The most digits that [int] converts from a string when the interpreter
    is not told otherwise ([sys.int_info.default_max_str_digits]). *)
Definition int_max_str_digits : nat := 4300.

Definition is_digit (c : ascii) : bool :=
  let n := N_of_ascii c in ((48 <=? n) && (n <=? 57))%N.

Fixpoint all_digits (s : string) : bool :=
  match s with
  | "" => true
  | String c s' => is_digit c && all_digits s'
  end.

(** The integer that a string of decimal digits writes, after [acc]. *)
Fixpoint digits_value (acc : Z) (s : string) : Z :=
  match s with
  | "" => acc
  | String c s' => digits_value (10 * acc + Z.of_N (N_of_ascii c - 48)) s'
  end.

(** A decoder for the texts [{"opportunities": n}] where [n] is an integer
    written in decimal digits without sign: as [json.loads] does, it converts
    the digits with [int], which raises [ValueError] when there are more than
    [int_max_str_digits] of them. It knows no other text. *)
Definition number_json_loads (s : string) : result value :=
  let opening := "{" +:+ quoted "opportunities" +:+ ": " in
  let digits :=
    String.substring (String.length opening)
      (String.length s - String.length opening - 1) s in
  if decide (s = opening +:+ digits +:+ "}") then
    if negb (all_digits digits) || String.eqb digits ""
       || (String.prefix "0" digits && (1 <? String.length digits)%nat)
    then Raise JSONDecodeError
    else if (int_max_str_digits <? String.length digits)%nat then Raise ValueError
    else Ok (JDict {[ "opportunities" := JInt (digits_value 0 digits) ]})
  else Raise JSONDecodeError.

Fixpoint repeat_char (c : ascii) (n : nat) : string :=
  match n with
  | O => ""
  | S n' => String c (repeat_char c n')
  end.

(** The text [{"opportunities": 11...1}], the integer of 4301 digits. *)
Definition huge_integer_json : string :=
  "{" +:+ quoted "opportunities" +:+ ": " +:+ repeat_char "1" 4301 +:+ "}".

(** ** The pipeline *)

Section Pipeline.

(** The state of everything outside the program: the clock and the analysis
    backend. *)
Variable world : Type.

(** [datetime.now()]. *)
Variable datetime_now : world → datetime * world.

(** The analysis backend, [client.messages.create(...)] followed by
    [response.content[0].text]: the text of the completion for a prompt, or an
    exception. *)
Variable backend : string → world → result string * world.

(** [json.loads]: the decoded value, or the exception it raises. On a text
    that is not JSON that is [json.JSONDecodeError]; on a text that is, the
    decoder can still raise: [ValueError] (here, one that is not a
    [JSONDecodeError], its subclass) when an integer has more digits than
    [int] converts, [RecursionError] when arrays or objects are nested too
    deep. *)
Variable json_loads : string → result value.

(** The built-in [hash] of the running interpreter on hashable values. *)
Variable hash : value → Z.

(** [int(os.getenv('MAX_OPPORTUNITIES_PER_INPUT', '3'))]. *)
Variable max_opportunities : Z.

(** [str.strip()] and [str.lower()] of the interpreter, on UTF-8 text. *)
Variable str_strip : string → string.
Variable str_lower : string → string.

(** The embedding backend and [cosine_similarity]: the score of two texts. *)
Variable similarity : string → string → Q.

(** [self.similarity_threshold]. *)
Variable similarity_threshold : Q.

(** A computation that reads the clock or calls the backend. *)
Definition M (A : Type) : Type := world → result A * world.

#[local] Instance M_ret : MRet M := λ A a w, (Ok a, w).
#[local] Instance M_bind : MBind M := λ A B f m w,
  match m w with
  | (Ok a, w') => f a w'
  | (Raise e, w') => (Raise e, w')
  end.
#[local] Instance M_fmap : FMap M := λ A B f m, a ← m; mret (f a).

Definition lift {A} (r : result A) : M A := λ w, (r, w).

Definition now : M datetime := λ w, let '(t, w') := datetime_now w in (Ok t, w').

(** [try: body except Exception as e: handler e]: what the body did to the
    world before it raised stays done. *)
Definition try_except {A} (body : M A) (handler : exn → M A) : M A := λ w,
  match body w with
  | (Ok a, w') => (Ok a, w')
  | (Raise e, w') => handler e w'
  end.

(** A [for] loop over a list, the loop state threaded from left to right. *)
Fixpoint for_loop {A S} (l : list A) (body : S → A → M S) (s : S) : M S :=
  match l with
  | [] => mret s
  | x :: l' => s' ← body s x; for_loop l' body s'
  end.

(** *** [AIAnalyzer] *)

(** [hash(v)]: lists and dicts are unhashable. *)
Definition py_hash (v : value) : result Z :=
  match v with
  | JList _ | JDict _ => Raise TypeError
  | _ => Ok (hash v)
  end.

(** The f-string [f"opp_{content_item.id}_{hash(opp_data['title']) % 10000}"],
    given the hash. Python's [%] takes the sign of the divisor, as
    [Z.modulo] does. *)
Definition opportunity_id (content_item : ContentItem.t) (title_hash : Z) : string :=
  "opp_" +:+ ContentItem.id content_item +:+ "_" +:+ pretty (title_hash `mod` 10000).

Definition _create_opportunity_from_analysis
    (opp_data : value) (content_item : ContentItem.t)
    (processing_date : option datetime) : M RawOpportunity :=
  now_ ← now;
  let proc_date := default now_ processing_date in
  title_value ← lift (subscript opp_data "title");
  title_hash ← lift (py_hash title_value);
  title ← lift (dict_get opp_data "title" (JStr "Oportunidad sin título"));
  description ← lift (dict_get opp_data "description" (JStr "Sin descripción"));
  category ← lift (dict_get opp_data "category" (JStr "improvement_opportunity"));
  severity ← lift (dict_get opp_data "severity" (JStr "medium"));
  keywords ← lift (dict_get opp_data "keywords" (JList []));
  mret {|
    Opportunity.id := opportunity_id content_item title_hash;
    Opportunity.title := title;
    Opportunity.description := description;
    Opportunity.category := category;
    Opportunity.severity := severity;
    Opportunity.frequency := 1;
    Opportunity.sources := [ContentItem.id content_item];
    Opportunity.keywords := keywords;
    Opportunity.created_at := now_;
    Opportunity.updated_at := now_;
    Opportunity.processing_date := proc_date;
    Opportunity.status := "nueva";
    Opportunity.comments := "";
    Opportunity.merged_from := []
  |}.

(** The literal [{"opportunities": []}]. *)
Definition no_opportunities : value := JDict {[ "opportunities" := JList [] ]}.

Definition _parse_ai_response (response_text : string) : result value :=
  try_catch
    (match re_search_braces response_text with
     | Some json_str => json_loads json_str
     | None => Ok no_opportunities
     end)
    (λ e, match e with
          | JSONDecodeError => Ok no_opportunities
          | _ => Raise e
          end).

Definition _build_analysis_prompt (content_item : ContentItem.t) : string :=
  let customer :=
    match ContentItem.customer_id content_item with
    | Some c => if decide (c = "") then "No especificado" else c
    | None => "No especificado"
    end in
  "
Analiza el siguiente contenido de cliente y identifica dolores, oportunidades de mejora o solicitudes de funcionalidades.

**INFORMACIÓN DEL CONTENIDO:**
- ID: " +:+ ContentItem.id content_item +:+ "
- Tipo: " +:+ ContentItem.content_type content_item +:+ "
- Cliente: " +:+ customer +:+ "
- Archivo fuente: " +:+ ContentItem.source_file content_item +:+ "

**CONTENIDO A ANALIZAR:**
" +:+ ContentItem.content content_item +:+ "

**INSTRUCCIONES:**
1. Identifica máximo " +:+ pretty max_opportunities +:+ " oportunidades principales
2. Para cada oportunidad identificada, proporciona:
   - Un título conciso y descriptivo
   - Una descripción detallada del dolor/oportunidad
   - Categoría: " +:+ quoted "pain_point" +:+ ", " +:+
  quoted "improvement_opportunity" +:+ ", o " +:+
  quoted "feature_request" +:+ "
   - Severidad: " +:+ quoted "low" +:+ ", " +:+ quoted "medium" +:+ ", " +:+
  quoted "high" +:+ ", o " +:+ quoted "critical" +:+ "
   - Palabras clave relacionadas (3-5 palabras)

3. Solo identifica oportunidades REALES y ESPECÍFICAS. No inventes problemas.
4. Si no hay oportunidades claras, devuelve una lista vacía.

**FORMATO DE RESPUESTA (JSON):**
{
    " +:+ quoted "opportunities" +:+ ": [
        {
            " +:+ quoted "title" +:+ ": " +:+
  quoted "Título de la oportunidad" +:+ ",
            " +:+ quoted "description" +:+ ": " +:+
  quoted "Descripción detallada del dolor o oportunidad identificada" +:+ ",
            " +:+ quoted "category" +:+ ": " +:+
  quoted "pain_point|improvement_opportunity|feature_request" +:+ ",
            " +:+ quoted "severity" +:+ ": " +:+
  quoted "low|medium|high|critical" +:+ ",
            " +:+ quoted "keywords" +:+ ": [" +:+ quoted "palabra1" +:+
  ", " +:+ quoted "palabra2" +:+ ", " +:+ quoted "palabra3" +:+ "]
        }
    ]
}

**RESPUESTA:**
".

Definition _analyze_single_item (content_item : ContentItem.t) : M (list RawOpportunity) :=
  let prompt := _build_analysis_prompt content_item in
  try_except
    (response_text ← backend prompt;
     analysis_result ← lift (_parse_ai_response response_text);
     raw_records ← lift (dict_get analysis_result "opportunities" (JList []));
     records ← lift (iterate raw_records);
     for_loop records
       (λ opportunities opp_data,
          opportunity ← _create_opportunity_from_analysis opp_data content_item None;
          mret (opportunities ++ [opportunity]))
       [])
    (λ e, mret []).

(** [AIAnalyzer._analyze_multiple_items], which [_analyze_batch] calls on a
    batch of several items. The class does not define it; it is a parameter
    here, so that what is proved of [_analyze_batch] holds whatever the method
    does. *)
Variable _analyze_multiple_items : list ContentItem.t → M (list RawOpportunity).

Definition _analyze_batch (content_items : list ContentItem.t) : M (list RawOpportunity) :=
  match content_items with
  | [item] =>
      try_except (_analyze_single_item item) (λ e, mret [])
  | _ =>
      try_except (_analyze_multiple_items content_items)
        (λ e,
           for_loop content_items
             (λ opportunities item,
                try_except
                  (item_opportunities ← _analyze_single_item item;
                   mret (opportunities ++ item_opportunities))
                  (λ e, mret opportunities))
             [])
  end.

(** *** [OpportunityDeduplicator] *)

Definition _find_similarity_groups
    (similarity_matrix : list (list Q)) (opportunities : list Opp)
    : result (list (list Opp)) :=
  let n := length opportunities in
  let visited := replicate n false in
  '(_, groups) ←
    for_each (seq 0 n)
      (λ '(visited, groups) i,
         seen ← index visited i;
         if seen : bool then Ok (visited, groups)
         else
           seed ← index opportunities i;
           let group := [seed] in
           let visited := <[i:=true]> visited in
           '(visited, group) ←
             for_each (seq (i + 1) (n - (i + 1)))
               (λ '(visited, group) j,
                  seen_j ← index visited j;
                  if seen_j : bool then Ok (visited, group)
                  else
                    row ← index similarity_matrix i;
                    score ← index row j;
                    if Qle_bool similarity_threshold score then
                      member ← index opportunities j;
                      Ok (<[j:=true]> visited, group ++ [member])
                    else Ok (visited, group))
               (visited, group);
           Ok (visited, groups ++ [group]))
      (visited, []);
  Ok groups.

(** The body of the loop of [_merge_descriptions]. *)
Definition collect_description
    (state : list string * gset string) (desc : string) : list string * gset string :=
  let '(unique_descriptions, seen) := state in
  let desc_clean := str_lower (str_strip desc) in
  if decide ((desc_clean ∉ seen) ∧ desc_clean ≠ "") then
    (unique_descriptions ++ [str_strip desc], {[desc_clean]} ∪ seen)
  else (unique_descriptions, seen).

Definition _merge_descriptions (descriptions : list string) : string :=
  match descriptions with
  | [only] => only
  | _ =>
      let '(unique_descriptions, seen) :=
        foldl collect_description ([], ∅) descriptions in
      match unique_descriptions with
      | [only] => only
      | _ => String.concat " | " unique_descriptions
      end
  end.

Definition severity_order : gmap string Z :=
  {[ "low" := 1; "medium" := 2; "high" := 3; "critical" := 4 ]}.

(** [severity_order.get(severity, 0)]. *)
Definition severity_value (severity : string) : Z :=
  default 0 (severity_order !! severity).

(** The body of the loop of [_get_highest_severity]. *)
Definition raise_severity (state : string * Z) (severity : string) : string * Z :=
  let '(highest_severity, highest_value) := state in
  let value := severity_value severity in
  if decide (value > highest_value) then (severity, value)
  else (highest_severity, highest_value).

Definition _get_highest_severity (severities : list string) : string :=
  let '(highest_severity, highest_value) :=
    foldl raise_severity ("low", 0) severities in
  highest_severity.

(** [min(...)] over a sequence with first element [x]. *)
Definition py_min (x : datetime) (rest : list datetime) : datetime :=
  foldl Z.min x rest.

(** The body of the loop of [_merge_opportunity_group]. *)
Definition accumulate (base_opp : Opp)
    (state : list string * gset string * Z * list string) (opp : Opp)
    : list string * gset string * Z * list string :=
  let '(all_sources, all_keywords, total_frequency, merged_ids) := state in
  (all_sources ++ Opportunity.sources opp,
   all_keywords ∪ list_to_set (Opportunity.keywords opp),
   total_frequency + Opportunity.frequency opp,
   if decide (Opportunity.id opp ≠ Opportunity.id base_opp)
   then merged_ids ++ [Opportunity.id opp] else merged_ids).

Definition _merge_opportunity_group (opportunities : list Opp) : M Opp :=
  match opportunities with
  | [only] => mret only
  | [] => lift (Raise IndexError)
  | base_opp :: others =>
      let '(all_sources, all_keywords, total_frequency, merged_ids) :=
        foldl (accumulate base_opp) ([], ∅, 0, []) opportunities in
      let description :=
        _merge_descriptions (Opportunity.description <$> opportunities) in
      let severity :=
        _get_highest_severity (Opportunity.severity <$> opportunities) in
      let created_at :=
        py_min (Opportunity.created_at base_opp) (Opportunity.created_at <$> others) in
      updated_at ← now;
      let processing_date :=
        py_min (Opportunity.processing_date base_opp)
               (Opportunity.processing_date <$> others) in
      mret {|
        Opportunity.id := Opportunity.id base_opp;
        Opportunity.title := Opportunity.title base_opp;
        Opportunity.description := description;
        Opportunity.category := Opportunity.category base_opp;
        Opportunity.severity := severity;
        Opportunity.frequency := total_frequency;
        Opportunity.sources := elements (list_to_set all_sources : gset string);
        Opportunity.keywords := elements all_keywords;
        Opportunity.created_at := created_at;
        Opportunity.updated_at := updated_at;
        Opportunity.processing_date := processing_date;
        Opportunity.status := Opportunity.status base_opp;
        Opportunity.comments := Opportunity.comments base_opp;
        Opportunity.merged_from := merged_ids
      |}
  end.

(** [cosine_similarity(self.model.encode(texts))]. *)
Definition similarity_matrix_of (texts : list string) : list (list Q) :=
  (λ a, similarity a <$> texts) <$> texts.

Definition deduplicate_opportunities (opportunities : list Opp) : M (list Opp) :=
  match opportunities with
  | [] => mret []
  | _ =>
      let texts := opportunity_text <$> opportunities in
      let similarity_matrix := similarity_matrix_of texts in
      groups ← lift (_find_similarity_groups similarity_matrix opportunities);
      for_loop groups
        (λ merged_opportunities group,
           merged_opp ← _merge_opportunity_group group;
           mret (merged_opportunities ++ [merged_opp]))
        []
  end.

(** *** [AIAnalyzer.analyze_content_items] *)

(** [int(os.getenv('AI_BATCH_SIZE', '10'))] and
    [int(os.getenv('MAX_ITEMS_PER_FILE', '500'))]. *)
Variable batch_size : Z.
Variable max_items_per_file : Z.

(** [range(start, stop, step)] for a step other than 0: the number of
    values is the quotient, rounded up, of the distance by the step, and none
    when the distance is not in the direction of the step. *)
Definition py_range (start stop step : Z) : list Z :=
  let count :=
    if decide (0 < step) then (stop - start + step - 1) `div` step
    else (start - stop - step - 1) `div` (- step) in
  (λ k, start + k * step) <$> seqZ 0 count.

(** A bound of a slice of a list of length [len]: a negative bound counts
    from the end, and every bound is brought back between 0 and [len]. *)
Definition slice_bound (len i : Z) : Z :=
  if decide (i < 0) then Z.max 0 (i + len) else Z.min i len.

(** [l[start:stop]]. *)
Definition py_slice {A} (l : list A) (start stop : Z) : list A :=
  let len := Z.of_nat (length l) in
  let first := slice_bound len start in
  let last := slice_bound len stop in
  take (Z.to_nat (last - first)) (drop (Z.to_nat first) l).

(** What leaves [analyze_content_items]: the exceptions of the analysis and
    of the callback, and the division by a batch size of 0. *)
Inductive raised :=
| ZeroDivisionError
| Exception (e : exn).

(** The items that are analysed: the first [max_items_per_file] of a list
    that has more. *)
Definition kept_items (content_items : list ContentItem.t) : list ContentItem.t :=
  if decide (Z.of_nat (length content_items) > max_items_per_file)
  then py_slice content_items 0 max_items_per_file
  else content_items.

(** [if progress_callback: progress_callback(batch_num, total_batches)]. *)
Definition notify (progress_callback : option (Z → Z → M ()))
    (batch_num total_batches : Z) : M () :=
  match progress_callback with
  | Some callback => callback batch_num total_batches
  | None => mret ()
  end.

Definition analyze_content_items
    (content_items : list ContentItem.t)
    (progress_callback : option (Z → Z → M ()))
    : world → (list RawOpportunity + raised) * world := λ w,
  let content_items := kept_items content_items in
  if decide (batch_size = 0) then (inr ZeroDivisionError, w)
  else
    let total_batches :=
      (Z.of_nat (length content_items) + batch_size - 1) `div` batch_size in
    match
      for_loop (py_range 0 (Z.of_nat (length content_items)) batch_size)
        (λ all_opportunities i,
           let batch_num := i `div` batch_size + 1 in
           let batch := py_slice content_items i (i + batch_size) in
           batch_opportunities ← _analyze_batch batch;
           notify progress_callback batch_num total_batches;;
           mret (all_opportunities ++ batch_opportunities))
        [] w
    with
    | (Ok all_opportunities, w') => (inl all_opportunities, w')
    | (Raise e, w') => (inr (Exception e), w')
    end.

(** *** Reference definitions

    The definitions below are not taken from the program: they say, in the
    words of the specification, what the program is compared with. *)

(** Every item of the batch through the path of a batch of one item, one
    after the other; the results, item by item. *)
Fixpoint each_individually (content_items : list ContentItem.t)
    : M (list (list RawOpportunity)) :=
  match content_items with
  | [] => mret []
  | item :: rest =>
      item_opportunities ← _analyze_batch [item];
      others ← each_individually rest;
      mret (item_opportunities :: others)
  end.

(** The sum of a list of integers. *)
Definition total (l : list Z) : Z := foldr Z.add 0 l.

(** The severities the program knows. *)
Definition recognized : list string := ["low"; "medium"; "high"; "critical"].

(** Case-insensitive trimmed form of a description. *)
Definition description_key (desc : string) : string := str_lower (str_strip desc).

(** Deduplication by a key: the first occurrence of every key is kept, in the
    order of the list. *)
Fixpoint first_occurrences {A} (key : A → string) (l : list A) : list A :=
  match l with
  | [] => []
  | x :: l' => x :: filter (λ y, key y ≠ key x) (first_occurrences key l')
  end.

(** The merged description as the specification words it: the members' descriptions,
    deduplicated by their key, joined by the separator (the join of a single
    description is that description). *)
Definition description_as_specified (descriptions : list string) : string :=
  String.concat " | " (first_occurrences description_key descriptions).

(** The merged description as the program computes it: blank descriptions
    are left out and the others are trimmed. *)
Definition distinct_descriptions (descriptions : list string) : list string :=
  str_strip <$>
    first_occurrences description_key
      (filter (λ desc, description_key desc ≠ "") descriptions).

(** A value that [hash] accepts. *)
Definition hashable (v : value) : Prop :=
  match v with
  | JList _ | JDict _ => False
  | _ => True
  end.

(** A record the factory accepts: an object whose title is present and
    hashable. *)
Definition usable_record (record : value) : bool :=
  match record with
  | JDict d =>
      match d !! "title" with
      | Some (JList _) | Some (JDict _) | None => false
      | Some _ => true
      end
  | _ => false
  end.

(** What every opportunity that comes out of the analysis of [content_item]
    looks like, whatever the response said. *)
Definition fresh_from (content_item : ContentItem.t) (opp : RawOpportunity) : Prop :=
  Opportunity.frequency opp = 1 ∧
  Opportunity.sources opp = [ContentItem.id content_item] ∧
  Opportunity.status opp = "nueva" ∧
  Opportunity.comments opp = "" ∧
  Opportunity.merged_from opp = [] ∧
  Opportunity.updated_at opp = Opportunity.created_at opp ∧
  ∃ n, 0 ≤ n < 10000 ∧
       Opportunity.id opp = "opp_" +:+ ContentItem.id content_item +:+ "_" +:+ pretty n.

(** The five fields of an opportunity that come from a record: the value the
    record gives to the key, or the default of the key when it is missing. *)
Definition built_from (record : value) (opp : RawOpportunity) : Prop :=
  ∃ d, record = JDict d ∧
    d !! "title" = Some (Opportunity.title opp) ∧
    Opportunity.description opp = default (JStr "Sin descripción") (d !! "description") ∧
    Opportunity.category opp = default (JStr "improvement_opportunity") (d !! "category") ∧
    Opportunity.severity opp = default (JStr "medium") (d !! "severity") ∧
    Opportunity.keywords opp = default (JList []) (d !! "keywords").

(** The batches of [analyze_content_items]: the slices of [batch_size] items
    at the offsets of the loop. *)
Definition batches_of (content_items : list ContentItem.t) : list (list ContentItem.t) :=
  (λ i, py_slice content_items i (i + batch_size)) <$>
    py_range 0 (Z.of_nat (length content_items)) batch_size.

(** The batches analysed one after the other, the callback told after each
    one its number, counted from [batch_num], and the number of batches. *)
Fixpoint run_batches (progress_callback : option (Z → Z → M ()))
    (batch_num total_batches : Z) (batches : list (list ContentItem.t))
    : M (list RawOpportunity) :=
  match batches with
  | [] => mret []
  | batch :: rest =>
      batch_opportunities ← _analyze_batch batch;
      notify progress_callback batch_num total_batches;;
      others ← run_batches progress_callback (batch_num + 1) total_batches rest;
      mret (batch_opportunities ++ others)
  end.

(** What a run in [M] is for the caller of [analyze_content_items]. *)
Definition as_outcome {A} (run : result A * world) : (A + raised) * world :=
  match run with
  | (Ok a, w') => (inl a, w')
  | (Raise e, w') => (inr (Exception e), w')
  end.

(** The opportunities at the positions that [visited] marks. *)
Fixpoint marked (visited : list bool) (opportunities : list Opp) : list Opp :=
  match visited, opportunities with
  | seen :: visited', opp :: opportunities' =>
      if seen then opp :: marked visited' opportunities'
      else marked visited' opportunities'
  | _, _ => []
  end.

(** [b] is similar enough to the seed [a] to join its group. *)
Definition near (a b : Opp) : Prop :=
  (similarity_threshold <= similarity (opportunity_text a) (opportunity_text b))%Q.

(** A group is a seed followed by members that are near the seed. *)
Definition seeded_group (group : list Opp) : Prop :=
  ∃ seed members, group = seed :: members ∧ Forall (near seed) members.

(** The seed of the first group is not near the seed of the second. *)
Definition apart (group1 group2 : list Opp) : Prop :=
  ∀ seed1 seed2, head group1 = Some seed1 → head group2 = Some seed2 →
    ¬ near seed1 seed2.

(** The body of the inner loop of [_find_similarity_groups], for the seed at
    position [i], and the body of its outer loop, under names. *)
Definition attach (similarity_matrix : list (list Q)) (opportunities : list Opp)
    (i : nat) (state : list bool * list Opp) (j : nat) : result (list bool * list Opp) :=
  let '(visited, group) := state in
  seen_j ← index visited j;
  if seen_j : bool then Ok (visited, group)
  else
    row ← index similarity_matrix i;
    score ← index row j;
    if Qle_bool similarity_threshold score then
      member ← index opportunities j;
      Ok (<[j:=true]> visited, group ++ [member])
    else Ok (visited, group).

Definition visit (similarity_matrix : list (list Q)) (opportunities : list Opp)
    (state : list bool * list (list Opp)) (i : nat)
    : result (list bool * list (list Opp)) :=
  let '(visited, groups) := state in
  seen ← index visited i;
  if seen : bool then Ok (visited, groups)
  else
    seed ← index opportunities i;
    '(visited, group) ←
      for_each (seq (i + 1) (length opportunities - (i + 1)))
        (attach similarity_matrix opportunities i) (<[i:=true]> visited, [seed]);
    Ok (visited, groups ++ [group]).

(** [merged] is what [_merge_opportunity_group] returns for [group], at some
    reading of the clock. *)
Definition merges_to (group : list Opp) (merged : Opp) : Prop :=
  ∃ w w', _merge_opportunity_group group w = (Ok merged, w').

(** The values of a field over the members of the groups. *)
Definition among {A} (field : Opp → list A) (opportunities : list Opp) (x : A) : Prop :=
  ∃ opp, opp ∈ opportunities ∧ x ∈ field opp.

(** What a merge keeps of its group: the identity of the first member, the
    sum of the frequencies, and the sources and keywords of every member. *)
Definition merged_like (group : list Opp) (merged : Opp) : Prop :=
  (∃ base_opp, head group = Some base_opp ∧
     Opportunity.id merged = Opportunity.id base_opp ∧
     Opportunity.title merged = Opportunity.title base_opp ∧
     Opportunity.category merged = Opportunity.category base_opp ∧
     Opportunity.status merged = Opportunity.status base_opp ∧
     Opportunity.comments merged = Opportunity.comments base_opp) ∧
  Opportunity.frequency merged = total (Opportunity.frequency <$> group) ∧
  (∀ source, source ∈ Opportunity.sources merged ↔ among Opportunity.sources group source) ∧
  (∀ keyword, keyword ∈ Opportunity.keywords merged ↔ among Opportunity.keywords group keyword).

(** The customer that the prompt names: an empty identifier counts as none. *)
Definition given_customer (content_item : ContentItem.t) : option string :=
  match ContentItem.customer_id content_item with
  | Some c => if decide (c = "") then None else Some c
  | None => None
  end.

(** ** Properties *)

(** Propositional goals are closed by [tauto], or [intuition congruence] when
    equations are involved, after the variables the goal does not mention are
    cleared: a variable of a function type would otherwise be read as an
    implication to use. *)
Ltac drop_variables :=
  repeat match goal with
         | x : ?T |- _ =>
             lazymatch type of T with
             | Prop => fail
             | _ => clear x
             end
         end.
Ltac logic := drop_variables; first [tauto | intuition congruence].

(** *** The response parser *)

Lemma append_nil_l (s : string) : "" +:+ s = s.
Proof. reflexivity. Qed.

Lemma append_cons (c : ascii) (s t : string) : String c s +:+ t = String c (s +:+ t).
Proof. reflexivity. Qed.

Lemma from_first_open_Some (s t : string) :
  from_first_open s = Some t →
  ∃ pre rest, s = pre +:+ t ∧ t = String "{" rest ∧ ¬ occurs "{" pre.
Proof.
  induction s as [|c s IH]; simpl; [done|].
  destruct (decide (c = "{"%char)) as [->|Hc].
  - intros [= <-]. exists "", s. split_and!; [done..|]. simpl. logic.
  - intros (pre & rest & -> & -> & Hpre)%IH.
    exists (String c pre), rest. split_and!; [done..|].
    simpl. intros [?|?]; [by subst|done].
Qed.

Lemma upto_last_close_Some (s p : string) :
  upto_last_close s = Some p →
  ∃ mid post, p = mid +:+ "}" ∧ s = p +:+ post ∧ ¬ occurs "}" post.
Proof.
  revert p. induction s as [|c s IH]; simpl; [done|]. intros p.
  destruct (upto_last_close s) as [p'|] eqn:Hs.
  - intros [= <-]. destruct (IH p' eq_refl) as (mid & post & -> & Hpost & Hno).
    exists (String c mid), post. rewrite !append_cons. by rewrite <-Hpost.
  - destruct (decide (c = "}"%char)) as [->|Hc]; [|done].
    intros [= <-]. exists "", s. split_and!; [done..|].
    clear IH. induction s as [|c' s IH]; simpl in *; [logic|].
    destruct (upto_last_close s); [done|].
    destruct (decide (c' = "}"%char)); [done|]. intros [?|?]; [by subst|]. by apply IH.
Qed.

Lemma from_first_open_app (pre t : string) :
  ¬ occurs "{" pre → from_first_open (pre +:+ String "{" t) = Some (String "{" t).
Proof.
  induction pre as [|c pre IH]; simpl; intros Hpre.
  - by rewrite ?append_nil_l.
  - rewrite ?append_cons. simpl. rewrite decide_False; [|logic].
    apply IH. logic.
Qed.

Lemma upto_last_close_None (s : string) :
  ¬ occurs "}" s → upto_last_close s = None.
Proof.
  induction s as [|c s IH]; simpl; [done|]. intros Hs.
  rewrite IH by logic. rewrite decide_False; [done|logic].
Qed.

Lemma upto_last_close_app (mid post : string) :
  ¬ occurs "}" post → upto_last_close (mid +:+ "}" +:+ post) = Some (mid +:+ "}").
Proof.
  intros Hpost. induction mid as [|c mid IH].
  - rewrite ?append_nil_l, ?append_cons, ?append_nil_l. simpl.
    by rewrite upto_last_close_None.
  - change (upto_last_close (String c (mid +:+ "}" +:+ post)) =
            Some (String c (mid +:+ "}"))).
    simpl. by rewrite IH.
Qed.

(** The match found is the region from the first opening brace to the last
    closing brace. *)
Lemma re_search_braces_Some (text region : string) :
  re_search_braces text = Some region →
  ∃ pre mid post,
    text = pre +:+ "{" +:+ mid +:+ "}" +:+ post ∧ region = "{" +:+ mid +:+ "}" ∧
    ¬ occurs "{" pre ∧ ¬ occurs "}" post.
Proof.
  unfold re_search_braces.
  destruct (from_first_open text) as [t|] eqn:Ht; [|done].
  apply from_first_open_Some in Ht as (pre & rest & -> & -> & Hpre).
  destruct (upto_last_close rest) as [p|] eqn:Hp; [|done].
  apply upto_last_close_Some in Hp as (mid & post & -> & -> & Hpost).
  intros [= <-]. exists pre, mid, post. split_and!; try done.
  f_equal. rewrite !append_cons, !append_nil_l.
  f_equal. clear. induction mid as [|c mid IH]; [done|].
  rewrite !append_cons. by rewrite IH.
Qed.

Lemma re_search_braces_region (pre mid post : string) :
  ¬ occurs "{" pre → ¬ occurs "}" post →
  re_search_braces (pre +:+ "{" +:+ mid +:+ "}" +:+ post) = Some ("{" +:+ mid +:+ "}").
Proof.
  intros Hpre Hpost. unfold re_search_braces.
  rewrite append_cons, append_nil_l, from_first_open_app by done.
  by rewrite upto_last_close_app.
Qed.

(** What the parser returns. When the text has no region from an opening
    brace to a later closing brace, it is the record whose opportunities list
    is empty; when it has, it is what decoding the region from the first
    opening brace to the last closing brace gives, the empty record when the
    decoder raises [JSONDecodeError], and the exception of the decoder when
    it raises another one, which the only handler does not catch. *)
Lemma parse_ai_response_outcome (response_text : string) :
  ((∀ pre mid post, response_text ≠ pre +:+ "{" +:+ mid +:+ "}" +:+ post) →
   _parse_ai_response response_text = Ok no_opportunities) ∧
  (∀ pre mid post,
     response_text = pre +:+ "{" +:+ mid +:+ "}" +:+ post →
     ¬ occurs "{" pre → ¬ occurs "}" post →
     _parse_ai_response response_text =
       match json_loads ("{" +:+ mid +:+ "}") with
       | Ok decoded => Ok decoded
       | Raise JSONDecodeError => Ok no_opportunities
       | Raise e => Raise e
       end) ∧
  dict_get no_opportunities "opportunities" JNull = Ok (JList []).
Proof.
  split_and!.
  - intros Hnone. unfold _parse_ai_response.
    destruct (re_search_braces response_text) as [region|] eqn:Hr; [|done].
    apply re_search_braces_Some in Hr as (pre & mid & post & Htext & _).
    by destruct (Hnone pre mid post).
  - intros pre mid post -> Hpre Hpost. unfold _parse_ai_response.
    rewrite re_search_braces_region by done.
    by destruct (json_loads _) as [decoded|[]].
  - done.
Qed.

(** *** The opportunity factory *)

(** What the factory returns on a record that has a hashable title. *)
Lemma create_opportunity_from_dict
    (d : gmap string value) (title_value : value) (title_hash : Z)
    (content_item : ContentItem.t) (processing_date : option datetime) (w : world) :
  d !! "title" = Some title_value →
  py_hash title_value = Ok title_hash →
  _create_opportunity_from_analysis (JDict d) content_item processing_date w =
    (Ok {|
       Opportunity.id := opportunity_id content_item title_hash;
       Opportunity.title := default (JStr "Oportunidad sin título") (d !! "title");
       Opportunity.description := default (JStr "Sin descripción") (d !! "description");
       Opportunity.category := default (JStr "improvement_opportunity") (d !! "category");
       Opportunity.severity := default (JStr "medium") (d !! "severity");
       Opportunity.frequency := 1;
       Opportunity.sources := [ContentItem.id content_item];
       Opportunity.keywords := default (JList []) (d !! "keywords");
       Opportunity.created_at := (datetime_now w).1;
       Opportunity.updated_at := (datetime_now w).1;
       Opportunity.processing_date := default (datetime_now w).1 processing_date;
       Opportunity.status := "nueva";
       Opportunity.comments := "";
       Opportunity.merged_from := []
     |}, (datetime_now w).2).
Proof.
  intros Htitle Hhash.
  unfold _create_opportunity_from_analysis, now, lift, mbind, M_bind, mret, M_ret.
  destruct (datetime_now w) as [t w']. simpl. by rewrite Htitle, Hhash.
Qed.

(** The optional fields other than the title: a record that has a title and
    lacks one of them gets the default of that field. *)
Lemma create_opportunity_defaults
    (d : gmap string value) (title : string)
    (content_item : ContentItem.t) (processing_date : option datetime) (w : world) :
  d !! "title" = Some (JStr title) →
  ∃ opportunity w',
    _create_opportunity_from_analysis (JDict d) content_item processing_date w =
      (Ok opportunity, w') ∧
    Opportunity.title opportunity = JStr title ∧
    (d !! "description" = None →
     Opportunity.description opportunity = JStr "Sin descripción") ∧
    (d !! "category" = None →
     Opportunity.category opportunity = JStr "improvement_opportunity") ∧
    (d !! "severity" = None → Opportunity.severity opportunity = JStr "medium") ∧
    (d !! "keywords" = None → Opportunity.keywords opportunity = JList []).
Proof.
  intros Htitle. eexists _, _. split.
  - apply (create_opportunity_from_dict _ _ _ _ _ _ Htitle eq_refl).
  - simpl. rewrite Htitle. split_and!; [done|by intros ->..].
Qed.

(** A record without a title: the subscript raises before any default is
    looked up. *)
Lemma create_opportunity_requires_title
    (d : gmap string value)
    (content_item : ContentItem.t) (processing_date : option datetime) (w : world) :
  d !! "title" = None →
  _create_opportunity_from_analysis (JDict d) content_item processing_date w =
    (Raise KeyError, (datetime_now w).2).
Proof.
  intros Htitle.
  unfold _create_opportunity_from_analysis, now, lift, mbind, M_bind, mret, M_ret.
  destruct (datetime_now w) as [t w']. simpl. by rewrite Htitle.
Qed.

(** C2. A record without a title does not reach the placeholder title: the
    identifier is derived from [opp_data['title']] first, and the factory
    raises [KeyError] on the record that only has a description. *)
Theorem create_opportunity_without_title_raises
    (content_item : ContentItem.t) (processing_date : option datetime) (w : world) :
  _create_opportunity_from_analysis
    (JDict {[ "description" := JStr "El cobro tarda demasiado" ]})
    content_item processing_date w =
  (Raise KeyError, (datetime_now w).2).
Proof.
  by apply create_opportunity_requires_title.
Qed.





(** *** The batch fallback *)

(** The analysis of one item catches every exception itself. *)
Lemma analyze_single_item_returns (content_item : ContentItem.t) (w : world) :
  ∃ opportunities w', _analyze_single_item content_item w = (Ok opportunities, w').
Proof.
  unfold _analyze_single_item, try_except.
  match goal with |- context [match ?body w with _ => _ end] => destruct (body w) as [[?|?] ?] end;
    by eexists _, _.
Qed.

Lemma analyze_batch_of_one (content_item : ContentItem.t) (w : world) :
  _analyze_batch [content_item] w = _analyze_single_item content_item w.
Proof.
  destruct (analyze_single_item_returns content_item w) as (opps & w' & H).
  unfold _analyze_batch, try_except. by rewrite H.
Qed.

(** The fallback loop, started with [opportunities] already collected, adds
    what the items yield one by one. *)
Lemma fallback_loop
    (content_items : list ContentItem.t) (opportunities : list RawOpportunity) (w : world) :
  ∃ per_item w',
    each_individually content_items w = (Ok per_item, w') ∧
    length per_item = length content_items ∧
    for_loop content_items
      (λ opportunities item,
         try_except
           (item_opportunities ← _analyze_single_item item;
            mret (opportunities ++ item_opportunities))
           (λ e, mret opportunities))
      opportunities w = (Ok (opportunities ++ concat per_item), w').
Proof.
  revert opportunities w.
  induction content_items as [|item rest IH]; intros opportunities w.
  - exists [], w. by rewrite app_nil_r.
  - destruct (analyze_single_item_returns item w) as (found & w1 & Hitem).
    destruct (IH (opportunities ++ found) w1) as (per_item & w2 & Hrest & Hlen & Hloop).
    exists (found :: per_item), w2. split_and!.
    + cbn [each_individually]. unfold mbind, M_bind at 1.
      rewrite analyze_batch_of_one, Hitem.
      unfold mbind, M_bind at 1. by rewrite Hrest.
    + simpl. by rewrite Hlen.
    + cbn [for_loop concat]. unfold mbind, M_bind at 1. unfold try_except at 1.
      unfold mbind, M_bind at 1. rewrite Hitem. unfold mret, M_ret at 1.
      rewrite app_assoc. exact Hloop.
Qed.

(** C5. When the consolidated call raises on a batch of more than one item,
    [_analyze_batch] returns, from the state of the world the failed call
    left, the concatenation in item order of what each item yields through the
    path of a batch of one; so it returns as many opportunities as the items
    yield one by one. *)
Theorem analyze_batch_falls_back_to_single_items
    (content_items : list ContentItem.t) (w w_failed : world) (e : exn) :
  (1 < length content_items)%nat →
  _analyze_multiple_items content_items w = (Raise e, w_failed) →
  ∃ per_item w',
    each_individually content_items w_failed = (Ok per_item, w') ∧
    length per_item = length content_items ∧
    _analyze_batch content_items w = (Ok (concat per_item), w') ∧
    length (concat per_item) = sum_list (length <$> per_item).
Proof.
  intros Hlen Hfail.
  destruct (fallback_loop content_items [] w_failed) as (per_item & w' & H1 & H2 & H3).
  exists per_item, w'. split_and!; [done..| |].
  - destruct content_items as [|item1 [|item2 rest]]; simpl in Hlen; [lia..|].
    unfold _analyze_batch, try_except at 1. by rewrite Hfail.
  - clear. induction per_item as [|x l IH]; [done|].
    simpl. rewrite length_app. by rewrite IH.
Qed.

(** *** Merging a group *)

Lemma accumulate_frequency (base_opp : Opp) (opportunities : list Opp)
    (state : list string * gset string * Z * list string) :
  (foldl (accumulate base_opp) state opportunities).1.2 =
  state.1.2 + total (Opportunity.frequency <$> opportunities).
Proof.
  revert state. induction opportunities as [|opp rest IH]; intros [[[a k] t] m]; simpl.
  - lia.
  - rewrite IH. simpl. symmetry. apply Z.add_assoc.
Qed.

Lemma total_cons (x : Z) (l : list Z) : total (x :: l) = x + total l.
Proof. done. Qed.

Lemma total_at_least_one (l : list Opp) :
  l ≠ [] → Forall (λ opp, 1 ≤ Opportunity.frequency opp) l →
  1 ≤ total (Opportunity.frequency <$> l).
Proof.
  intros Hl Hall. destruct Hall as [|opp l Hopp Hall]; [done|]. clear Hl.
  rewrite fmap_cons, total_cons.
  enough (0 ≤ total (Opportunity.frequency <$> l)) by lia.
  induction Hall as [|x l' Hx _ IH]; [done|].
  rewrite fmap_cons, total_cons. lia.
Qed.

(** The merge of a group of two or more members. *)
Lemma merge_opportunity_group_several (base_opp second : Opp) (rest : list Opp) (w : world) :
  ∃ merged,
    _merge_opportunity_group (base_opp :: second :: rest) w =
      (Ok merged, (datetime_now w).2) ∧
    Opportunity.id merged = Opportunity.id base_opp ∧
    Opportunity.title merged = Opportunity.title base_opp ∧
    Opportunity.frequency merged =
      total (Opportunity.frequency <$> base_opp :: second :: rest) ∧
    Opportunity.severity merged =
      _get_highest_severity (Opportunity.severity <$> base_opp :: second :: rest) ∧
    Opportunity.description merged =
      _merge_descriptions (Opportunity.description <$> base_opp :: second :: rest).
Proof.
  unfold _merge_opportunity_group.
  pose proof (accumulate_frequency base_opp (base_opp :: second :: rest) ([], ∅, 0, [])) as Hfreq.
  destruct (foldl _ _ (base_opp :: second :: rest)) as [[[a k] t] m].
  unfold mbind, M_bind, now, mret, M_ret. destruct (datetime_now w) as [time w'].
  eexists. split; [done|]. simpl in *. split_and!; first [done | lia].
Qed.

(** C9. Merging a group of one member returns that member, every field as it
    was; the clock is not read. *)
Theorem merge_single_member_is_identity (opp : Opp) (w : world) :
  _merge_opportunity_group [opp] w = (Ok opp, w).
Proof. done. Qed.

(** C3. The frequency of the merge of a non-empty group is the sum of the
    frequencies of its members, and is at least 1 when theirs are. *)
Theorem merged_frequency_is_sum (cluster : list Opp) (w : world) :
  cluster ≠ [] →
  ∃ merged w',
    _merge_opportunity_group cluster w = (Ok merged, w') ∧
    Opportunity.frequency merged = total (Opportunity.frequency <$> cluster) ∧
    (Forall (λ opp, 1 ≤ Opportunity.frequency opp) cluster →
     1 ≤ Opportunity.frequency merged).
Proof.
  intros Hne. pose proof total_at_least_one as Hpos.
  destruct cluster as [|base_opp [|second rest]]; [done| |].
  - exists base_opp, w. split_and!; [done|rewrite fmap_cons, total_cons; simpl; lia|].
    intros Hall. by apply Forall_cons in Hall as [? _].
  - destruct (merge_opportunity_group_several base_opp second rest w)
      as (merged & Hrun & _ & _ & Hfreq & _).
    exists merged, (datetime_now w).2. split_and!; [done..|].
    intros Hall. rewrite Hfreq. by apply Hpos.
Qed.

(** *** The highest severity *)

Lemma severity_value_cases (severity : string) :
  (severity = "low" ∧ severity_value severity = 1) ∨
  (severity = "medium" ∧ severity_value severity = 2) ∨
  (severity = "high" ∧ severity_value severity = 3) ∨
  (severity = "critical" ∧ severity_value severity = 4) ∨
  ((severity ∉ recognized) ∧ severity_value severity = 0).
Proof.
  destruct (decide (severity = "low")) as [->|Hlow]; [by left|].
  destruct (decide (severity = "medium")) as [->|Hmedium]; [by right; left|].
  destruct (decide (severity = "high")) as [->|Hhigh]; [by right; right; left|].
  destruct (decide (severity = "critical")) as [->|Hcritical];
    [by right; right; right; left|].
  right; right; right; right. split.
  - unfold recognized. rewrite !elem_of_cons, elem_of_nil. logic.
  - unfold severity_value, severity_order.
    by rewrite !lookup_insert_ne, lookup_singleton_ne.
Qed.

Lemma severity_value_recognized (severity : string) :
  severity ∈ recognized ↔ 1 ≤ severity_value severity.
Proof.
  unfold recognized. rewrite !elem_of_cons, elem_of_nil.
  destruct (severity_value_cases severity)
    as [[-> ->]|[[-> ->]|[[-> ->]|[[-> ->]|[Hno ->]]]]]; try (split; [lia|logic]).
  split; [|lia]. intros H. destruct Hno.
  unfold recognized. rewrite !elem_of_cons, elem_of_nil. logic.
Qed.

(** Two recognized severities of the same rank are the same string. *)
Lemma severity_value_inj (s1 s2 : string) :
  1 ≤ severity_value s1 → severity_value s1 = severity_value s2 → s1 = s2.
Proof.
  destruct (severity_value_cases s1) as [[-> ->]|[[-> ->]|[[-> ->]|[[-> ->]|[_ ->]]]]];
  destruct (severity_value_cases s2) as [[-> ->]|[[-> ->]|[[-> ->]|[[-> ->]|[_ ->]]]]];
  intros; first [done | lia].
Qed.

Lemma raise_severity_gt (kept severity : string) (value : Z) :
  severity_value severity > value →
  raise_severity (kept, value) severity = (severity, severity_value severity).
Proof. intros H. unfold raise_severity. by rewrite decide_True. Qed.

Lemma raise_severity_le (kept severity : string) (value : Z) :
  ¬ severity_value severity > value →
  raise_severity (kept, value) severity = (kept, value).
Proof. intros H. unfold raise_severity. by rewrite decide_False. Qed.

(** The loop of [_get_highest_severity] from any state: the value kept only
    grows, it bounds the value of every severity met, and when the state
    changed the severity kept is one of the list, with the value kept. *)
Lemma raise_severity_fold (severities : list string) (kept : string) (value : Z) :
  let final := foldl raise_severity (kept, value) severities in
  value ≤ final.2 ∧
  (∀ severity, severity ∈ severities → severity_value severity ≤ final.2) ∧
  (final = (kept, value) ∨
   (final.1 ∈ severities ∧ severity_value final.1 = final.2 ∧ value < final.2)).
Proof.
  revert kept value.
  induction severities as [|s rest IH]; intros kept value final; subst final;
    cbn [foldl].
  - split_and!; [simpl; lia| |by left]. by intros ? ?%elem_of_nil.
  - destruct (decide (severity_value s > value)) as [Hgt|Hle].
    + rewrite raise_severity_gt by done.
      destruct (IH s (severity_value s)) as (Hmono & Hbound & Hkept).
      split_and!; [lia| |].
      * intros s' [->|Hin]%elem_of_cons; [done|by apply Hbound].
      * right. destruct Hkept as [->|(Hin & Hval & Hlt)]; simpl.
        -- split_and!; [by left|done|lia].
        -- split_and!; [by right|done|lia].
    + rewrite raise_severity_le by done.
      destruct (IH kept value) as (Hmono & Hbound & Hkept).
      split_and!; [lia| |].
      * intros s' [->|Hin]%elem_of_cons; [lia|by apply Hbound].
      * destruct Hkept as [->|(Hin & Hval & Hlt)]; [by left|].
        right. split_and!; [by right|done|lia].
Qed.

(** What [_get_highest_severity] returns: a recognized severity whose value
    bounds the value of every severity of the list; it is a severity of the
    list as soon as one of them is recognized, and 'low' otherwise. *)
Lemma get_highest_severity_spec (severities : list string) :
  _get_highest_severity severities ∈ recognized ∧
  (∀ severity, severity ∈ severities →
     severity_value severity ≤ severity_value (_get_highest_severity severities)) ∧
  ((∃ severity, severity ∈ severities ∧ severity ∈ recognized) →
   _get_highest_severity severities ∈ severities) ∧
  ((∀ severity, severity ∈ severities → severity ∉ recognized) →
   _get_highest_severity severities = "low").
Proof.
  unfold _get_highest_severity.
  pose proof (raise_severity_fold severities "low" 0) as (Hmono & Hbound & Hkept).
  destruct (foldl raise_severity ("low", 0) severities) as [highest value].
  simpl in *. split_and!.
  - destruct Hkept as [[= -> ->]|(_ & Hval & Hpos)].
    + unfold recognized. rewrite !elem_of_cons. logic.
    + apply severity_value_recognized. lia.
  - intros s Hs. specialize (Hbound s Hs).
    destruct Hkept as [[= -> ->]|(_ & Hval & Hpos)]; [|lia].
    change (severity_value "low") with 1. lia.
  - intros (s & Hs & Hrec). apply severity_value_recognized in Hrec.
    specialize (Hbound s Hs).
    destruct Hkept as [[= -> ->]|(Hin & _)]; [lia|done].
  - intros Hnone. destruct Hkept as [[= -> ->]|(Hin & Hval & Hpos)]; [done|].
    destruct (Hnone highest Hin). apply severity_value_recognized. lia.
Qed.

(** The result does not depend on the order of the list. *)
Lemma get_highest_severity_perm (l1 l2 : list string) :
  l1 ≡ₚ l2 → _get_highest_severity l1 = _get_highest_severity l2.
Proof.
  intros Hperm.
  destruct (get_highest_severity_spec l1) as (Hrec1 & Hmax1 & Hin1 & Hlow1).
  destruct (get_highest_severity_spec l2) as (Hrec2 & Hmax2 & Hin2 & Hlow2).
  destruct (decide (Exists (λ s, s ∈ recognized) l1)) as [Hex|Hnone].
  - apply Exists_exists in Hex as (s & Hs & Hrec).
    assert (_get_highest_severity l1 ∈ l1) as H1 by eauto.
    assert (_get_highest_severity l2 ∈ l2) as H2.
    { apply Hin2. exists s. by rewrite <-Hperm. }
    apply severity_value_inj.
    + by apply severity_value_recognized.
    + apply Z.le_antisymm.
      * apply Hmax2. by rewrite <-Hperm.
      * apply Hmax1. by rewrite Hperm.
  - rewrite Hlow1, Hlow2; [done| |].
    + intros s Hs Hrec. apply Hnone, Exists_exists. exists s. by rewrite Hperm.
    + intros s Hs Hrec. apply Hnone, Exists_exists. by exists s.
Qed.

(** C6. In a group of two or more members whose severities are all among
    'low', 'medium', 'high' and 'critical', the merged severity is the
    severity of a member, no member ranks above it in the order
    low < medium < high < critical of [severity_order], and merging any
    permutation of the group gives the same severity. *)
Theorem merged_severity_is_maximum (cluster : list Opp) (w : world) :
  (2 ≤ length cluster)%nat →
  Forall (λ opp, Opportunity.severity opp ∈ recognized) cluster →
  ∃ merged w',
    _merge_opportunity_group cluster w = (Ok merged, w') ∧
    (∃ member, member ∈ cluster ∧
       Opportunity.severity merged = Opportunity.severity member) ∧
    (∀ member, member ∈ cluster →
       severity_value (Opportunity.severity member) ≤
       severity_value (Opportunity.severity merged)) ∧
    (severity_value "low" < severity_value "medium" ∧
     severity_value "medium" < severity_value "high" ∧
     severity_value "high" < severity_value "critical") ∧
    (∀ permuted w2, permuted ≡ₚ cluster →
       ∃ merged2 w2',
         _merge_opportunity_group permuted w2 = (Ok merged2, w2') ∧
         Opportunity.severity merged2 = Opportunity.severity merged).
Proof.
  intros Hlen Hall.
  destruct cluster as [|base_opp [|second rest]]; simpl in Hlen; [lia..|].
  destruct (merge_opportunity_group_several base_opp second rest w)
    as (merged & Hrun & _ & _ & _ & Hsev & _).
  destruct (get_highest_severity_spec
              (Opportunity.severity <$> base_opp :: second :: rest))
    as (_ & Hmax & Hin & _).
  exists merged, (datetime_now w).2. split_and!; [done| | |done..|].
  - rewrite Hsev.
    destruct (proj1 (list_elem_of_fmap _ _ _)
                (Hin (ex_intro _ (Opportunity.severity base_opp)
                        (conj (list_elem_of_here _ _) (Forall_inv Hall)))))
      as (member & Heq & Hmember).
    by exists member.
  - intros member Hmember. rewrite Hsev. apply Hmax.
    apply list_elem_of_fmap. by exists member.
  - intros permuted w2 Hperm.
    destruct permuted as [|base2 [|second2 rest2]];
      try (apply Permutation_length in Hperm; simpl in Hperm; lia).
    destruct (merge_opportunity_group_several base2 second2 rest2 w2)
      as (merged2 & Hrun2 & _ & _ & _ & Hsev2 & _).
    exists merged2, (datetime_now w2).2. split; [done|].
    rewrite Hsev, Hsev2. apply get_highest_severity_perm. by rewrite Hperm.
Qed.

(** C10. In a group of two or more members, a severity that is not one of
    'low', 'medium', 'high', 'critical' has a value below that of 'low'; the
    merged severity is always a recognized one, no member ranks above it, and
    it is 'low' when no member has a recognized severity. *)
Theorem unrecognized_severity_ranks_below_low (cluster : list Opp) (w : world) :
  (2 ≤ length cluster)%nat →
  ∃ merged w',
    _merge_opportunity_group cluster w = (Ok merged, w') ∧
    (∀ member, member ∈ cluster → Opportunity.severity member ∉ recognized →
       severity_value (Opportunity.severity member) < severity_value "low") ∧
    Opportunity.severity merged ∈ recognized ∧
    (∀ member, member ∈ cluster →
       severity_value (Opportunity.severity member) ≤
       severity_value (Opportunity.severity merged)) ∧
    (Forall (λ opp, Opportunity.severity opp ∉ recognized) cluster →
     Opportunity.severity merged = "low").
Proof.
  intros Hlen.
  destruct cluster as [|base_opp [|second rest]]; simpl in Hlen; [lia..|].
  destruct (merge_opportunity_group_several base_opp second rest w)
    as (merged & Hrun & _ & _ & _ & Hsev & _).
  destruct (get_highest_severity_spec
              (Opportunity.severity <$> base_opp :: second :: rest))
    as (Hrec & Hmax & _ & Hlow).
  exists merged, (datetime_now w).2. split_and!; [done| | | |].
  - intros member _ Hno.
    destruct (severity_value_cases (Opportunity.severity member))
      as [[Hs _]|[[Hs _]|[[Hs _]|[[Hs _]|[_ ->]]]]]; [..|done];
      destruct Hno; rewrite Hs; unfold recognized; rewrite !elem_of_cons; logic.
  - by rewrite Hsev.
  - intros member Hmember. rewrite Hsev. apply Hmax.
    apply list_elem_of_fmap. by exists member.
  - intros Hnone. rewrite Hsev. apply Hlow.
    intros s (member & -> & Hmember)%list_elem_of_fmap.
    by apply (proj1 (Forall_forall _ _) Hnone).
Qed.

(** *** The merged description *)

(** Filtering on the key commutes with keeping first occurrences. *)
Lemma filter_first_occurrences {A} (key : A → string)
    (P : string → Prop) `{!∀ k, Decision (P k)} (l : list A) :
  filter (λ x, P (key x)) (first_occurrences key l) =
  first_occurrences key (filter (λ x, P (key x)) l).
Proof.
  induction l as [|x l IH]; [done|].
  cbn [first_occurrences]. rewrite !filter_cons.
  destruct (decide (P (key x))) as [HP|HP].
  - cbn [first_occurrences]. f_equal. rewrite <-IH.
    rewrite !list_filter_filter. apply list_filter_iff. logic.
  - rewrite <-IH, list_filter_filter. apply list_filter_iff.
    intros y. split; [logic|]. intros Hy. split; [done|].
    intros Heq. by rewrite Heq in Hy.
Qed.

(** The loop of [_merge_descriptions] from any state: it appends, trimmed,
    the first occurrences of the descriptions that are not blank and whose
    key has not been seen. *)
Lemma collect_description_fold
    (descriptions unique_descriptions : list string) (seen : gset string) :
  (foldl collect_description (unique_descriptions, seen) descriptions).1 =
  unique_descriptions ++
    (str_strip <$>
       first_occurrences description_key
         (filter (λ desc, (description_key desc ∉ seen) ∧ description_key desc ≠ "")
            descriptions)).
Proof.
  revert unique_descriptions seen.
  induction descriptions as [|desc rest IH]; intros unique_descriptions seen.
  - simpl. by rewrite app_nil_r.
  - cbn [foldl]. rewrite filter_cons. unfold collect_description at 2.
    fold (description_key desc).
    destruct (decide ((description_key desc ∉ seen) ∧ description_key desc ≠ ""))
      as [[Hnew Hfull]|Hskip].
    + rewrite IH. cbn [first_occurrences]. rewrite fmap_cons, <-app_assoc.
      simpl. do 3 f_equal.
      pose proof (filter_first_occurrences description_key
                    (λ k, k ≠ description_key desc)
                    (filter (λ d, (description_key d ∉ seen) ∧ description_key d ≠ "")
                       rest)) as Hcomm.
      etrans; [|symmetry; exact Hcomm].
      rewrite list_filter_filter. f_equal. apply list_filter_iff.
      intros d. rewrite not_elem_of_union, not_elem_of_singleton. logic.
    + by rewrite IH.
Qed.

(** What [_merge_descriptions] returns on two or more descriptions. *)
Lemma merge_descriptions_several (first second : string) (rest : list string) :
  _merge_descriptions (first :: second :: rest) =
  String.concat " | " (distinct_descriptions (first :: second :: rest)).
Proof.
  unfold _merge_descriptions.
  pose proof (collect_description_fold (first :: second :: rest) [] ∅) as Hfold.
  destruct (foldl collect_description ([], ∅) (first :: second :: rest))
    as [unique_descriptions seen].
  simpl in Hfold. subst unique_descriptions.
  assert (∀ l, match l with [only] => only | _ => String.concat " | " l end =
               String.concat " | " l) as -> by (by intros [|? [|? ?]]).
  f_equal. unfold distinct_descriptions. do 2 f_equal.
  apply list_filter_iff. intros d. split; [logic|].
  intros Hd. split; [apply not_elem_of_empty|done].
Qed.

(** C7. In a group of two or more members, the merged description is the
    join of the distinct descriptions, which are the members' descriptions
    that are not blank once trimmed, each trimmed, deduplicated by
    case-insensitive trimmed equality with the first occurrence kept in member
    order; it is that description alone when only one remains and the empty
    string when none does. *)
Theorem merged_description_joins_distinct (cluster : list Opp) (w : world) :
  (2 ≤ length cluster)%nat →
  ∃ merged w',
    _merge_opportunity_group cluster w = (Ok merged, w') ∧
    Opportunity.description merged =
      String.concat " | "
        (distinct_descriptions (Opportunity.description <$> cluster)) ∧
    (∀ only, distinct_descriptions (Opportunity.description <$> cluster) = [only] →
       Opportunity.description merged = only) ∧
    (distinct_descriptions (Opportunity.description <$> cluster) = [] →
     Opportunity.description merged = "").
Proof.
  intros Hlen.
  destruct cluster as [|base_opp [|second rest]]; simpl in Hlen; [lia..|].
  destruct (merge_opportunity_group_several base_opp second rest w)
    as (merged & Hrun & _ & _ & _ & _ & Hdesc).
  exists merged, (datetime_now w).2.
  rewrite Hdesc, !fmap_cons, merge_descriptions_several.
  split_and!; [done..| |]; by intros; simplify_eq/=; rewrite ?H.
Qed.

(** *** Grouping by similarity to the seed *)

Lemma threshold_reached (score : Q) :
  (similarity_threshold <= score)%Q → Qle_bool similarity_threshold score = true.
Proof. apply Qle_bool_iff. Qed.

Lemma threshold_missed (score : Q) :
  (score < similarity_threshold)%Q → Qle_bool similarity_threshold score = false.
Proof.
  intros Hlt. destruct (Qle_bool similarity_threshold score) eqn:Hle; [|done].
  apply Qle_bool_iff in Hle. by destruct (Qlt_not_le _ _ Hlt).
Qed.

(** C1. Three opportunities A, B, C with similarity(A,B) and similarity(B,C)
    at or above the threshold and similarity(A,C) below it: in the order
    [A, B, C] the seed A takes B and leaves C, which is below the threshold to
    the seed, in a group of its own; in the order [A, C, B] the seed A leaves
    C and takes B, and C stays alone. Both orders give the groups [A, B] and
    [C]. *)
Theorem similarity_groups_link_to_the_seed (A B C : Opp) :
  (similarity_threshold <= similarity (opportunity_text A) (opportunity_text B))%Q →
  (similarity_threshold <= similarity (opportunity_text B) (opportunity_text C))%Q →
  (similarity (opportunity_text A) (opportunity_text C) < similarity_threshold)%Q →
  _find_similarity_groups
    (similarity_matrix_of (opportunity_text <$> [A; B; C])) [A; B; C]
    = Ok [[A; B]; [C]] ∧
  _find_similarity_groups
    (similarity_matrix_of (opportunity_text <$> [A; C; B])) [A; C; B]
    = Ok [[A; B]; [C]].
Proof.
  intros HAB%threshold_reached _ HAC%threshold_missed.
  unfold _find_similarity_groups, similarity_matrix_of.
  split; cbn -[Qle_bool]; rewrite ?HAB, ?HAC; cbn -[Qle_bool];
    rewrite ?HAB, ?HAC; done.
Qed.

(** *** More on the factory and on the analysis of one item *)

Lemma usable_record_inv (record : value) :
  usable_record record = true →
  ∃ d title_value,
    record = JDict d ∧ d !! "title" = Some title_value ∧
    py_hash title_value = Ok (hash title_value).
Proof.
  destruct record as [| | | | |?|d]; simpl; try done.
  destruct (d !! "title") as [[]|] eqn:Htitle; try done; by eexists _, _.
Qed.

(** The factory reads the clock once, whatever becomes of the record. *)
Lemma create_opportunity_outcome
    (opp_data : value) (content_item : ContentItem.t)
    (processing_date : option datetime) (w : world) :
  if usable_record opp_data then
    ∃ opp,
      _create_opportunity_from_analysis opp_data content_item processing_date w =
        (Ok opp, (datetime_now w).2) ∧
      fresh_from content_item opp ∧ built_from opp_data opp ∧
      Opportunity.created_at opp = (datetime_now w).1 ∧
      Opportunity.processing_date opp = default (datetime_now w).1 processing_date
  else
    ∃ e,
      _create_opportunity_from_analysis opp_data content_item processing_date w =
        (Raise e, (datetime_now w).2).
Proof.
  destruct (usable_record opp_data) eqn:Husable.
  - apply usable_record_inv in Husable as (d & tv & -> & Htitle & Hhash).
    eexists. split; [by apply (create_opportunity_from_dict _ _ _ _ _ _ Htitle Hhash)|].
    split_and!; try done.
    + unfold fresh_from. simpl. split_and!; try done.
      exists (hash tv `mod` 10000). split; [|done].
      by apply Z.mod_pos_bound.
    + exists d. simpl. by rewrite Htitle.
  - unfold _create_opportunity_from_analysis, now, lift, mbind, M_bind, mret, M_ret.
    destruct (datetime_now w) as [t w']. simpl.
    destruct opp_data as [| | | | |?|d]; simpl; try by eexists.
    simpl in Husable.
    destruct (d !! "title") as [[]|]; simpl; try done; by eexists.
Qed.

(** X1. A record that is not an object, and a record whose title is a list
    or an object, make the factory raise [TypeError], after the clock has
    been read. *)
Theorem create_opportunity_type_errors
    (content_item : ContentItem.t) (processing_date : option datetime) (w : world) :
  (∀ opp_data, (∀ d, opp_data ≠ JDict d) →
     _create_opportunity_from_analysis opp_data content_item processing_date w =
       (Raise TypeError, (datetime_now w).2)) ∧
  (∀ d title_value, d !! "title" = Some title_value → ¬ hashable title_value →
     _create_opportunity_from_analysis (JDict d) content_item processing_date w =
       (Raise TypeError, (datetime_now w).2)).
Proof.
  split.
  - intros opp_data Hnot.
    unfold _create_opportunity_from_analysis, now, lift, mbind, M_bind, mret, M_ret.
    destruct (datetime_now w) as [t w']. simpl.
    destruct opp_data as [| | | | |?|d]; simpl; try done. by destruct (Hnot d).
  - intros d tv Htitle Hhash.
    unfold _create_opportunity_from_analysis, now, lift, mbind, M_bind, mret, M_ret.
    destruct (datetime_now w) as [t w']. simpl. rewrite Htitle.
    destruct tv; simpl in *; try done; by destruct Hhash.
Qed.

(** X2. The factory validates nothing: with a hashable title, every field
    the record has is stored as it is, whatever its JSON type (a null, a
    severity or a category outside the enumerations, keywords that are not a
    list), and only a missing key gets its default. *)
Theorem create_opportunity_stores_fields_verbatim
    (d : gmap string value) (title_value : value)
    (content_item : ContentItem.t) (processing_date : option datetime) (w : world) :
  d !! "title" = Some title_value →
  hashable title_value →
  ∃ opp,
    _create_opportunity_from_analysis (JDict d) content_item processing_date w =
      (Ok opp, (datetime_now w).2) ∧
    Opportunity.title opp = title_value ∧
    (∀ v, d !! "description" = Some v → Opportunity.description opp = v) ∧
    (∀ v, d !! "category" = Some v → Opportunity.category opp = v) ∧
    (∀ v, d !! "severity" = Some v → Opportunity.severity opp = v) ∧
    (∀ v, d !! "keywords" = Some v → Opportunity.keywords opp = v).
Proof.
  intros Htitle Hhash.
  assert (py_hash title_value = Ok (hash title_value)) as Hpy
    by (by destruct title_value).
  eexists. split; [by apply (create_opportunity_from_dict _ _ _ _ _ _ Htitle Hpy)|].
  simpl. rewrite Htitle. split_and!; [done|by intros v ->..].
Qed.

Lemma bind_returned {A B} (m : M A) (f : A → M B) (w w' : world) (a : A) :
  m w = (Ok a, w') → (m ≫= f) w = f a w'.
Proof. intros H. unfold mbind, M_bind. by rewrite H. Qed.

Lemma bind_raised {A B} (m : M A) (f : A → M B) (w w' : world) (e : exn) :
  m w = (Raise e, w') → (m ≫= f) w = (Raise e, w').
Proof. intros H. unfold mbind, M_bind. by rewrite H. Qed.

Lemma bind_lift {A B} (r : result A) (f : A → M B) (w : world) :
  (lift r ≫= f) w = match r with Ok a => f a w | Raise e => (Raise e, w) end.
Proof. unfold mbind, M_bind, lift. by destruct r. Qed.

Lemma bind_assoc {A B C} (m : M A) (f : A → M B) (g : B → M C) (w : world) :
  ((m ≫= f) ≫= g) w = (m ≫= λ a, f a ≫= g) w.
Proof. unfold mbind, M_bind. by destruct (m w) as [[a|e] w']. Qed.

Lemma bind_ret_l {A B} (a : A) (f : A → M B) (w : world) :
  (mret a ≫= f) w = f a w.
Proof. done. Qed.

Lemma bind_ext {A B} (m : M A) (f g : A → M B) (w : world) :
  (∀ a w', f a w' = g a w') → (m ≫= f) w = (m ≫= g) w.
Proof. intros H. unfold mbind, M_bind. destruct (m w) as [[a|e] w']; [apply H|done]. Qed.

Lemma bind_cong {A B} (m m' : M A) (f : A → M B) (w : world) :
  (∀ w0, m w0 = m' w0) → (m ≫= f) w = (m' ≫= f) w.
Proof. intros H. unfold mbind, M_bind. by rewrite H. Qed.

(** The loop of [_analyze_single_item] over the records of a response: it
    appends one opportunity per record when every record is usable, and
    raises otherwise. *)
Lemma record_loop
    (content_item : ContentItem.t) (records : list value)
    (opportunities : list RawOpportunity) (w : world) :
  ∃ outcome w',
    for_loop records
      (λ opportunities opp_data,
         opportunity ← _create_opportunity_from_analysis opp_data content_item None;
         mret (opportunities ++ [opportunity]))
      opportunities w = (outcome, w') ∧
    if forallb usable_record records then
      ∃ new,
        outcome = Ok (opportunities ++ new) ∧
        Forall2 built_from records new ∧
        Forall (fresh_from content_item) new ∧
        Forall (λ opp, Opportunity.processing_date opp = Opportunity.created_at opp) new
    else ∃ e, outcome = Raise e.
Proof.
  revert opportunities w.
  induction records as [|record rest IH]; intros opportunities w.
  - eexists _, _. split; [done|]. exists []. by rewrite app_nil_r.
  - cbn [for_loop forallb].
    pose proof (create_opportunity_outcome record content_item None w) as Hrecord.
    destruct (usable_record record).
    + destruct Hrecord as (opp & Hopp & Hfresh & Hbuilt & Hcreated & Hdate).
      rewrite (bind_returned _ _ _ _ _
                 (bind_returned _ (λ o, mret (opportunities ++ [o])) _ _ _ Hopp)).
      destruct (IH (opportunities ++ [opp]) (datetime_now w).2)
        as (outcome & w' & Hloop & Hrest).
      exists outcome, w'. split; [exact Hloop|]. simpl.
      destruct (forallb usable_record rest).
      * destruct Hrest as (new & -> & ? & ? & ?).
        exists (opp :: new). rewrite <-app_assoc. split_and!; try done.
        -- by constructor.
        -- by constructor.
        -- constructor; [|done]. simpl in Hdate. congruence.
      * done.
    + destruct Hrecord as (e & Hopp).
      rewrite (bind_raised _ _ _ _ _
                 (bind_raised _ (λ o, mret (opportunities ++ [o])) _ _ _ Hopp)).
      eexists _, _. split; [done|]. by eexists.
Qed.

(** The rest of [_analyze_single_item] once the backend has answered. *)
Lemma analyze_single_item_after_response
    (content_item : ContentItem.t) (w w1 : world) (response_text : string)
    (analysis_result : value) (records : list value) :
  backend (_build_analysis_prompt content_item) w = (Ok response_text, w1) →
  _parse_ai_response response_text = Ok analysis_result →
  dict_get analysis_result "opportunities" (JList []) = Ok (JList records) →
  ∃ opportunities w',
    _analyze_single_item content_item w = (Ok opportunities, w') ∧
    if forallb usable_record records then
      Forall2 built_from records opportunities ∧
      Forall (fresh_from content_item) opportunities ∧
      Forall (λ opp, Opportunity.processing_date opp = Opportunity.created_at opp)
        opportunities
    else opportunities = [].
Proof.
  intros Hbackend Hparse Hget.
  unfold _analyze_single_item, try_except.
  rewrite (bind_returned _ _ _ _ _ Hbackend).
  rewrite bind_lift, Hparse, bind_lift, Hget, bind_lift. cbn [iterate].
  destruct (record_loop content_item records [] w1) as (outcome & w' & -> & Hloop).
  destruct (forallb usable_record records).
  - destruct Hloop as (new & -> & ? & ? & ?). by exists new, w'.
  - destruct Hloop as (e & ->). by exists [], w'.
Qed.

(** X3. When the response decodes to an object whose 'opportunities' is a
    list of usable records (objects with a hashable title),
    [_analyze_single_item] returns one opportunity per record, in the order
    of the records, each with the fields of its record. *)
Theorem analyze_single_item_one_opportunity_per_record
    (content_item : ContentItem.t) (w w1 : world) (response_text : string)
    (analysis_result : value) (records : list value) :
  backend (_build_analysis_prompt content_item) w = (Ok response_text, w1) →
  _parse_ai_response response_text = Ok analysis_result →
  dict_get analysis_result "opportunities" (JList []) = Ok (JList records) →
  forallb usable_record records = true →
  ∃ opportunities w',
    _analyze_single_item content_item w = (Ok opportunities, w') ∧
    length opportunities = length records ∧
    Forall2 built_from records opportunities.
Proof.
  intros Hbackend Hparse Hget Hall.
  destruct (analyze_single_item_after_response _ _ _ _ _ _ Hbackend Hparse Hget)
    as (opportunities & w' & Hrun & Hrest).
  rewrite Hall in Hrest. destruct Hrest as (Hbuilt & _).
  exists opportunities, w'. split_and!; [done| |done].
  symmetry. by eapply Forall2_length.
Qed.

(** X4. One record that the factory refuses (not an object, no title, or an
    unhashable title) anywhere in the list costs the item all its
    opportunities: [_analyze_single_item] returns the empty list. *)
Theorem analyze_single_item_all_or_nothing
    (content_item : ContentItem.t) (w w1 : world) (response_text : string)
    (analysis_result : value) (records : list value) :
  backend (_build_analysis_prompt content_item) w = (Ok response_text, w1) →
  _parse_ai_response response_text = Ok analysis_result →
  dict_get analysis_result "opportunities" (JList []) = Ok (JList records) →
  forallb usable_record records = false →
  ∃ w', _analyze_single_item content_item w = (Ok [], w').
Proof.
  intros Hbackend Hparse Hget Hbad.
  destruct (analyze_single_item_after_response _ _ _ _ _ _ Hbackend Hparse Hget)
    as (opportunities & w' & Hrun & Hrest).
  rewrite Hbad in Hrest. subst opportunities. by exists w'.
Qed.

(** X5. Whatever the backend answers, [_analyze_single_item] returns, and
    every opportunity it returns has frequency 1, the item as its only source,
    status 'nueva', no comments, nothing merged, equal creation, update and
    processing dates, and an identifier made of 'opp_', the item id, '_' and a
    number between 0 and 9999. *)
Theorem analyze_single_item_invariants (content_item : ContentItem.t) (w : world) :
  ∃ opportunities w',
    _analyze_single_item content_item w = (Ok opportunities, w') ∧
    Forall (fresh_from content_item) opportunities ∧
    Forall (λ opp, Opportunity.processing_date opp = Opportunity.created_at opp)
      opportunities.
Proof.
  unfold _analyze_single_item, try_except.
  destruct (backend (_build_analysis_prompt content_item) w) as [[text|e] w1] eqn:Hbackend.
  - rewrite (bind_returned _ _ _ _ _ Hbackend), bind_lift.
    destruct (_parse_ai_response text) as [analysis_result|e]; [|by exists [], w1].
    rewrite bind_lift.
    destruct (dict_get analysis_result "opportunities" (JList [])) as [raw|e];
      [|by exists [], w1].
    rewrite bind_lift.
    destruct (iterate raw) as [records|e]; [|by exists [], w1].
    destruct (record_loop content_item records [] w1) as (outcome & w' & -> & Hloop).
    destruct (forallb usable_record records).
    + destruct Hloop as (new & -> & _ & ? & ?). by exists new, w'.
    + destruct Hloop as (e & ->). by exists [], w'.
  - rewrite (bind_raised _ _ _ _ _ Hbackend). by exists [], w1.
Qed.

(** X6. Failures before the records are read degrade to no opportunities
    for the item, the world left as the backend left it: a backend call that
    raises, a response without a region between braces, a region on which
    the decoder raises (a decode error, caught by the parser, or any other
    exception, which the parser lets out and the item's handler catches), a
    decoded object without the key 'opportunities', and a value of that key
    that cannot be iterated (null, a boolean, a number). *)
Theorem analyze_single_item_degrades_to_nothing (content_item : ContentItem.t) (w : world) :
  (∀ e w1,
     backend (_build_analysis_prompt content_item) w = (Raise e, w1) →
     _analyze_single_item content_item w = (Ok [], w1)) ∧
  (∀ text w1,
     backend (_build_analysis_prompt content_item) w = (Ok text, w1) →
     (∀ pre mid post, text ≠ pre +:+ "{" +:+ mid +:+ "}" +:+ post) →
     _analyze_single_item content_item w = (Ok [], w1)) ∧
  (∀ pre mid post w1 e,
     backend (_build_analysis_prompt content_item) w =
       (Ok (pre +:+ "{" +:+ mid +:+ "}" +:+ post), w1) →
     ¬ occurs "{" pre → ¬ occurs "}" post →
     json_loads ("{" +:+ mid +:+ "}") = Raise e →
     _analyze_single_item content_item w = (Ok [], w1)) ∧
  (∀ text w1 d,
     backend (_build_analysis_prompt content_item) w = (Ok text, w1) →
     _parse_ai_response text = Ok (JDict d) →
     d !! "opportunities" = None →
     _analyze_single_item content_item w = (Ok [], w1)) ∧
  (∀ text w1 d raw,
     backend (_build_analysis_prompt content_item) w = (Ok text, w1) →
     _parse_ai_response text = Ok (JDict d) →
     d !! "opportunities" = Some raw →
     (raw = JNull ∨ (∃ b, raw = JBool b) ∨ (∃ n, raw = JInt n) ∨ (∃ x, raw = JFloat x)) →
     _analyze_single_item content_item w = (Ok [], w1)).
Proof.
  assert (∀ text w1,
            backend (_build_analysis_prompt content_item) w = (Ok text, w1) →
            _parse_ai_response text = Ok no_opportunities →
            _analyze_single_item content_item w = (Ok [], w1)) as Hempty.
  { intros text w1 Hbackend Hparse. unfold _analyze_single_item, try_except.
    by rewrite (bind_returned _ _ _ _ _ Hbackend), bind_lift, Hparse, bind_lift. }
  split_and!.
  - intros e w1 Hbackend. unfold _analyze_single_item, try_except.
    by rewrite (bind_raised _ _ _ _ _ Hbackend).
  - intros text w1 Hbackend Hnone. apply (Hempty text); [done|].
    unfold _parse_ai_response.
    destruct (re_search_braces text) as [region|] eqn:Hregion; [|done].
    apply re_search_braces_Some in Hregion as (pre & mid & post & Htext & _).
    by destruct (Hnone pre mid post).
  - intros pre mid post w1 e Hbackend Hpre Hpost Hdecode.
    destruct (parse_ai_response_outcome (pre +:+ "{" +:+ mid +:+ "}" +:+ post))
      as (_ & Hregion & _).
    specialize (Hregion pre mid post eq_refl Hpre Hpost). rewrite Hdecode in Hregion.
    assert (_parse_ai_response (pre +:+ "{" +:+ mid +:+ "}" +:+ post) =
              Ok no_opportunities ∨
            _parse_ai_response (pre +:+ "{" +:+ mid +:+ "}" +:+ post) = Raise e)
      as [Hcaught|Hout] by (destruct e; auto).
    + by eapply Hempty.
    + unfold _analyze_single_item, try_except.
      by rewrite (bind_returned _ _ _ _ _ Hbackend), bind_lift, Hout.
  - intros text w1 d Hbackend Hparse Hkey. unfold _analyze_single_item, try_except.
    rewrite (bind_returned _ _ _ _ _ Hbackend), bind_lift, Hparse, bind_lift.
    simpl. by rewrite Hkey.
  - intros text w1 d raw Hbackend Hparse Hkey Hraw.
    unfold _analyze_single_item, try_except.
    rewrite (bind_returned _ _ _ _ _ Hbackend), bind_lift, Hparse, bind_lift.
    simpl. rewrite Hkey. simpl. rewrite bind_lift.
    by destruct Hraw as [->|[[b ->]|[[n ->]|[x ->]]]].
Qed.

(** *** Batches *)

Lemma analyze_batch_returns_aux (content_items : list ContentItem.t) (w : world) :
  ∃ opportunities w',
    _analyze_batch content_items w = (Ok opportunities, w') ∧
    (∀ found w1,
       length content_items ≠ 1%nat →
       _analyze_multiple_items content_items w = (Ok found, w1) →
       opportunities = found ∧ w' = w1).
Proof.
  assert (∀ items : list ContentItem.t,
            length items ≠ 1%nat →
            ∃ opportunities w',
              try_except (_analyze_multiple_items items)
                (λ e,
                   for_loop items
                     (λ opportunities item,
                        try_except
                          (item_opportunities ← _analyze_single_item item;
                           mret (opportunities ++ item_opportunities))
                          (λ e, mret opportunities))
                     []) w = (Ok opportunities, w') ∧
              (∀ found w1,
                 _analyze_multiple_items items w = (Ok found, w1) →
                 opportunities = found ∧ w' = w1)) as Hmany.
  { intros items _. unfold try_except at 1.
    destruct (_analyze_multiple_items items w) as [[found|e] w1].
    - exists found, w1. split; [done|]. by intros ?? [= <- <-].
    - destruct (fallback_loop items [] w1) as (per_item & w' & _ & _ & ->).
      eexists _, _. split; [done|]. by intros. }
  destruct content_items as [|item [|item2 rest]].
  - destruct (Hmany []) as (opportunities & w' & Hrun & Hfound); [done|].
    exists opportunities, w'. split; [exact Hrun|]. intros ?? _. apply Hfound.
  - destruct (analyze_single_item_returns item w) as (opportunities & w' & Hitem).
    exists opportunities, w'. split; [by rewrite analyze_batch_of_one|]. by intros.
  - destruct (Hmany (item :: item2 :: rest)) as (opportunities & w' & Hrun & Hfound);
      [done|].
    exists opportunities, w'. split; [exact Hrun|]. intros ?? _. apply Hfound.
Qed.

Lemma analyze_batch_returns (content_items : list ContentItem.t) (w : world) :
  ∃ opportunities w', _analyze_batch content_items w = (Ok opportunities, w').
Proof.
  destruct (analyze_batch_returns_aux content_items w) as (opportunities & w' & H & _).
  by exists opportunities, w'.
Qed.

(** X7. [_analyze_batch] raises nothing, whatever the consolidated call
    does and whatever the size of the batch (also none); on a batch that is
    not of one item, the result of a consolidated call that succeeds is
    returned as it is. *)
Theorem analyze_batch_never_raises (content_items : list ContentItem.t) (w : world) :
  ∃ opportunities w',
    _analyze_batch content_items w = (Ok opportunities, w') ∧
    (∀ found w1,
       length content_items ≠ 1%nat →
       _analyze_multiple_items content_items w = (Ok found, w1) →
       opportunities = found ∧ w' = w1).
Proof. apply analyze_batch_returns_aux. Qed.

Lemma py_range_forward (stop step : Z) :
  0 < step →
  py_range 0 stop step = (λ k, k * step) <$> seqZ 0 ((stop + step - 1) `div` step).
Proof.
  intros Hstep. unfold py_range. rewrite decide_True by done.
  rewrite Z.sub_0_r. by apply list_fmap_ext.
Qed.

Lemma py_range_backward (stop step : Z) :
  step < 0 → 0 ≤ stop → py_range 0 stop step = [].
Proof.
  intros Hstep Hstop. unfold py_range. rewrite decide_False by lia.
  rewrite seqZ_nil; [done|].
  assert ((0 - stop - step - 1) `div` (- step) < 1); [|lia].
  apply Z.div_lt_upper_bound; lia.
Qed.

Lemma seqZ_of_nat (m : nat) : seqZ 0 (Z.of_nat m) = Z.of_nat <$> seq 0 m.
Proof.
  unfold seqZ. rewrite Nat2Z.id. apply list_fmap_ext. intros _ i _. lia.
Qed.

(** A slice that starts at a non-negative offset and has a positive size. *)
Lemma py_slice_chunk {A} (l : list A) (i size : nat) :
  (0 < size)%nat →
  py_slice l (Z.of_nat i) (Z.of_nat i + Z.of_nat size) = take size (drop i l).
Proof.
  intros Hsize. unfold py_slice, slice_bound.
  rewrite !decide_False by lia.
  destruct (decide (i ≤ length l)%nat) as [Hin|Hout].
  - rewrite (Z.min_l (Z.of_nat i)) by lia. rewrite Nat2Z.id.
    destruct (decide (i + size ≤ length l)%nat).
    + rewrite Z.min_l by lia. f_equal. lia.
    + rewrite Z.min_r by lia. rewrite (take_ge _ size); [|rewrite length_drop; lia].
      apply take_ge. rewrite length_drop. lia.
  - rewrite !Z.min_r by lia. rewrite Z.sub_diag. simpl.
    rewrite (drop_ge l i) by lia. by rewrite take_nil.
Qed.

(** A slice from the start up to a non-negative bound. *)
Lemma py_slice_prefix {A} (l : list A) (size : nat) :
  py_slice l 0 (Z.of_nat size) = take size l.
Proof.
  unfold py_slice, slice_bound. rewrite !decide_False by lia.
  rewrite (Z.min_l 0) by lia. simpl. rewrite Z.sub_0_r.
  destruct (decide (size ≤ length l)%nat).
  - rewrite Z.min_l by lia. by rewrite Nat2Z.id.
  - rewrite Z.min_r by lia. rewrite Nat2Z.id.
    rewrite (take_ge l size) by lia. apply take_ge. lia.
Qed.

(** Consecutive slices of a positive size add up to the list. *)
Lemma concat_chunks {A} (size count : nat) (l : list A) :
  (0 < size)%nat → (length l ≤ count * size)%nat →
  concat ((λ k, take size (drop (k * size) l)) <$> seq 0 count) = l.
Proof.
  intros Hsize. revert l. induction count as [|count IH]; intros l Hlen.
  - simpl in *. by destruct l; simpl in *; [|lia].
  - cbn [seq]. rewrite <-fmap_S_seq, fmap_cons, <-list_fmap_compose. cbn [concat].
    transitivity (take size l ++ drop size l); [|apply take_drop].
    f_equal. rewrite <-(IH (drop size l)) by (rewrite length_drop; lia).
    f_equal. apply list_fmap_ext. intros _ k _. simpl.
    by rewrite drop_drop.
Qed.

(** The batches, with sizes and offsets as natural numbers. *)
Lemma batches_of_chunks (content_items : list ContentItem.t) :
  0 < batch_size →
  batches_of content_items =
    (λ k, take (Z.to_nat batch_size) (drop (k * Z.to_nat batch_size) content_items))
      <$> seq 0 (Z.to_nat ((Z.of_nat (length content_items) + batch_size - 1)
                            `div` batch_size)).
Proof.
  intros Hsize. unfold batches_of. rewrite py_range_forward by done.
  set (count := (Z.of_nat (length content_items) + batch_size - 1) `div` batch_size).
  assert (0 ≤ count) as Hcount by (apply Z.div_pos; lia).
  rewrite <-(Z2Nat.id count) at 1 by done.
  rewrite seqZ_of_nat, <-!list_fmap_compose.
  apply list_fmap_ext. intros _ k _. simpl.
  pose proof (py_slice_chunk content_items (k * Z.to_nat batch_size)
                (Z.to_nat batch_size)) as Hchunk.
  rewrite Nat2Z.inj_mul, Z2Nat.id in Hchunk by lia. apply Hchunk. lia.
Qed.

(** The number of batches, rounded up, covers the list, and one batch less
    does not. *)
Lemma batch_count_bounds (n : nat) :
  0 < batch_size →
  let count := Z.to_nat ((Z.of_nat n + batch_size - 1) `div` batch_size) in
  (n ≤ count * Z.to_nat batch_size)%nat ∧
  (0 < n → (count - 1) * Z.to_nat batch_size < n)%nat ∧
  (n = 0 → count = 0)%nat.
Proof.
  intros Hsize count.
  pose proof (Z.div_mod (Z.of_nat n + batch_size - 1) batch_size) as Hdiv.
  pose proof (Z.mod_pos_bound (Z.of_nat n + batch_size - 1) batch_size Hsize) as Hmod.
  assert (0 ≤ (Z.of_nat n + batch_size - 1) `div` batch_size) as Hpos
    by (apply Z.div_pos; lia).
  subst count.
  set (q := (Z.of_nat n + batch_size - 1) `div` batch_size) in *.
  split_and!; nia.
Qed.

Lemma batches_count (content_items : list ContentItem.t) :
  0 < batch_size →
  Z.of_nat (length (batches_of content_items)) =
    (Z.of_nat (length content_items) + batch_size - 1) `div` batch_size.
Proof.
  intros Hsize. rewrite batches_of_chunks by done.
  rewrite length_fmap, length_seq, Z2Nat.id; [done|]. apply Z.div_pos; lia.
Qed.

Lemma batches_partition_aux (content_items : list ContentItem.t) :
  0 < batch_size →
  concat (batches_of content_items) = content_items ∧
  Forall (λ batch, (1 ≤ length batch)%nat ∧ Z.of_nat (length batch) ≤ batch_size)
    (batches_of content_items) ∧
  (∀ k batch,
     batches_of content_items !! k = Some batch →
     (S k < length (batches_of content_items))%nat →
     Z.of_nat (length batch) = batch_size) ∧
  Z.of_nat (length (batches_of content_items)) =
    (Z.of_nat (length content_items) + batch_size - 1) `div` batch_size.
Proof.
  intros Hsize. rewrite batches_of_chunks by done.
  destruct (batch_count_bounds (length content_items) Hsize) as (Hcover & Htight & Hzero).
  assert (0 ≤ (Z.of_nat (length content_items) + batch_size - 1) `div` batch_size)
    as Hcount by (apply Z.div_pos; lia).
  set (count := Z.to_nat ((Z.of_nat (length content_items) + batch_size - 1)
                            `div` batch_size)) in *.
  assert (Z.of_nat (Z.to_nat batch_size) = batch_size) as Hsize' by lia.
  set (size := Z.to_nat batch_size) in *.
  assert (0 < size)%nat as Hpos by lia.
  assert (∀ k, k < count → k * size < length content_items)%nat as Hstart.
  { intros k Hk.
    assert (k * size ≤ (count - 1) * size)%nat by (apply Nat.mul_le_mono_r; lia).
    lia. }
  assert (∀ k, S k < count → size ≤ length content_items - k * size)%nat as Hfull.
  { intros k Hk. specialize (Hstart (S k) Hk). simpl in Hstart. lia. }
  split_and!.
  - by apply concat_chunks.
  - apply Forall_fmap, Forall_forall. intros k [_ Hk]%elem_of_seq. simpl.
    rewrite length_take, length_drop. specialize (Hstart k Hk). lia.
  - intros k batch. rewrite list_lookup_fmap, length_fmap, length_seq.
    intros Hbatch Hnext. rewrite lookup_seq_lt in Hbatch by lia.
    simpl in Hbatch. injection Hbatch as <-.
    rewrite length_take, length_drop. specialize (Hfull k Hnext). lia.
  - rewrite length_fmap, length_seq. subst count. by rewrite Z2Nat.id.
Qed.

(** X8. For a positive batch size the batches are a partition of the list
    into consecutive runs: put end to end they give the list back, none is
    empty or longer than the batch size, every batch but the last is full,
    and there are as many as the quotient of the number of items by the batch
    size, rounded up. *)
Theorem batches_partition_the_items (content_items : list ContentItem.t) :
  0 < batch_size →
  concat (batches_of content_items) = content_items ∧
  Forall (λ batch, (1 ≤ length batch)%nat ∧ Z.of_nat (length batch) ≤ batch_size)
    (batches_of content_items) ∧
  (∀ k batch,
     batches_of content_items !! k = Some batch →
     (S k < length (batches_of content_items))%nat →
     Z.of_nat (length batch) = batch_size) ∧
  Z.of_nat (length (batches_of content_items)) =
    (Z.of_nat (length content_items) + batch_size - 1) `div` batch_size.
Proof. apply batches_partition_aux. Qed.

(** The loop of [analyze_content_items] over the offsets [k * batch_size],
    for k from [first] on: it is the run of the slices at these offsets, with
    the batches numbered from [first + 1], added to what was collected. *)
Lemma batch_loop
    (content_items : list ContentItem.t) (progress_callback : option (Z → Z → M ()))
    (total_batches : Z) (count : nat) (first : Z)
    (all_opportunities : list RawOpportunity) (w : world) :
  0 < batch_size →
  for_loop ((λ k, k * batch_size) <$> seqZ first (Z.of_nat count))
    (λ all_opportunities i,
       batch_opportunities ←
         _analyze_batch (py_slice content_items i (i + batch_size));
       notify progress_callback (i `div` batch_size + 1) total_batches;;
       mret (all_opportunities ++ batch_opportunities))
    all_opportunities w =
  (others ←
     run_batches progress_callback (first + 1) total_batches
       ((λ i, py_slice content_items i (i + batch_size)) <$>
          ((λ k, k * batch_size) <$> seqZ first (Z.of_nat count)));
   mret (all_opportunities ++ others)) w.
Proof.
  intros Hsize. revert first all_opportunities w.
  induction count as [|count IH]; intros first all_opportunities w.
  - simpl. unfold mbind, M_bind, mret, M_ret. by rewrite app_nil_r.
  - rewrite Nat2Z.inj_succ, seqZ_cons by lia.
    rewrite Z.pred_succ, !fmap_cons. cbn [for_loop run_batches].
    rewrite Z.div_mul by lia.
    rewrite !bind_assoc. apply bind_ext. intros found w1.
    rewrite !bind_assoc. apply bind_ext. intros [] w2.
    rewrite bind_ret_l, IH.
    replace (Z.succ first + 1) with (first + 1 + 1) by lia.
    rewrite !bind_assoc. apply bind_ext. intros others w3.
    by rewrite bind_ret_l, app_assoc.
Qed.

Lemma analyze_content_items_runs_the_batches_aux
    (content_items : list ContentItem.t) (progress_callback : option (Z → Z → M ()))
    (w : world) :
  0 < batch_size →
  analyze_content_items content_items progress_callback w =
  as_outcome
    (run_batches progress_callback 1
       (Z.of_nat (length (batches_of (kept_items content_items))))
       (batches_of (kept_items content_items)) w).
Proof.
  intros Hsize. unfold analyze_content_items. rewrite decide_False by lia.
  rewrite (batches_count (kept_items content_items) Hsize).
  unfold batches_of. rewrite py_range_forward by done.
  set (total := (Z.of_nat (length (kept_items content_items)) + batch_size - 1)
                  `div` batch_size).
  assert (0 ≤ total) as Htotal by (apply Z.div_pos; lia).
  replace (seqZ 0 total) with (seqZ 0 (Z.of_nat (Z.to_nat total)))
    by (by rewrite Z2Nat.id).
  rewrite (batch_loop _ _ _ _ 0 [] w Hsize). simpl.
  unfold mbind, M_bind, as_outcome.
  by destruct (run_batches _ _ _ _ w) as [[others|e] w'].
Qed.

(** X9. With a positive batch size, [analyze_content_items] is the run of
    the batches of the kept items one after the other: each batch is analysed,
    then the callback, when there is one, is called with the number of the
    batch, counted from 1, and the number of batches; the opportunities come
    in the order of the batches, and an exception of the callback ends the
    run. *)
Theorem analyze_content_items_runs_the_batches
    (content_items : list ContentItem.t) (progress_callback : option (Z → Z → M ()))
    (w : world) :
  0 < batch_size →
  analyze_content_items content_items progress_callback w =
  as_outcome
    (run_batches progress_callback 1
       (Z.of_nat (length (batches_of (kept_items content_items))))
       (batches_of (kept_items content_items)) w).
Proof. apply analyze_content_items_runs_the_batches_aux. Qed.

(** X10. A batch size of 0 makes [analyze_content_items] raise
    [ZeroDivisionError] on every input, the empty list included, before
    anything is analysed. *)
Theorem analyze_content_items_batch_size_zero
    (content_items : list ContentItem.t) (progress_callback : option (Z → Z → M ()))
    (w : world) :
  batch_size = 0 →
  analyze_content_items content_items progress_callback w = (inr ZeroDivisionError, w).
Proof. intros Hzero. unfold analyze_content_items. by rewrite decide_True. Qed.

(** X11. A negative batch size makes [analyze_content_items] return no
    opportunity: the range of offsets is empty, so no item is analysed and the
    callback is never called. *)
Theorem analyze_content_items_negative_batch_size
    (content_items : list ContentItem.t) (progress_callback : option (Z → Z → M ()))
    (w : world) :
  batch_size < 0 →
  analyze_content_items content_items progress_callback w = (inl [], w).
Proof.
  intros Hneg. unfold analyze_content_items. rewrite decide_False by lia.
  by rewrite py_range_backward by lia.
Qed.

(** X12. With a cap that is not negative, the items after the first
    [max_items_per_file] play no part: a list longer than the cap is analysed
    as its first [max_items_per_file] items are. *)
Theorem analyze_content_items_ignores_items_over_the_cap
    (content_items : list ContentItem.t) (progress_callback : option (Z → Z → M ()))
    (w : world) :
  0 ≤ max_items_per_file < Z.of_nat (length content_items) →
  analyze_content_items content_items progress_callback w =
  analyze_content_items (take (Z.to_nat max_items_per_file) content_items)
    progress_callback w.
Proof.
  intros [Hcap Hlong].
  assert (kept_items content_items =
          kept_items (take (Z.to_nat max_items_per_file) content_items)) as Hkept.
  { unfold kept_items. rewrite decide_True by lia.
    rewrite decide_False by (rewrite length_take; lia).
    rewrite <-(Z2Nat.id max_items_per_file) at 1 by done.
    apply py_slice_prefix. }
  unfold analyze_content_items. by rewrite Hkept.
Qed.

Lemma each_individually_returns (content_items : list ContentItem.t) (w : world) :
  ∃ per_item w', each_individually content_items w = (Ok per_item, w').
Proof.
  destruct (fallback_loop content_items [] w) as (per_item & w' & H & _).
  by exists per_item, w'.
Qed.

Lemma each_individually_app (items1 items2 : list ContentItem.t) (w : world) :
  each_individually (items1 ++ items2) w =
  (found1 ← each_individually items1;
   found2 ← each_individually items2;
   mret (found1 ++ found2)) w.
Proof.
  revert w. induction items1 as [|item rest IH]; intros w.
  - simpl. rewrite bind_ret_l. unfold mbind, M_bind.
    by destruct (each_individually items2 w) as [[found|e] w'].
  - cbn [app each_individually].
    rewrite !bind_assoc. apply bind_ext. intros found w1.
    rewrite (bind_cong _ _ _ _ IH), !bind_assoc. apply bind_ext. intros others w2.
    rewrite bind_ret_l, !bind_assoc. apply bind_ext. intros found2 w3.
    by rewrite bind_ret_l.
Qed.

(** When the consolidated call raises without doing anything, a batch, of
    any size, yields what its items yield one by one. *)
Lemma analyze_batch_as_items (batch : list ContentItem.t) (w : world) :
  (∀ items w0, ∃ e, _analyze_multiple_items items w0 = (Raise e, w0)) →
  _analyze_batch batch w =
  (per_item ← each_individually batch; mret (concat per_item)) w.
Proof.
  intros Hfail.
  assert (∀ items : list ContentItem.t,
            try_except (_analyze_multiple_items items)
              (λ e,
                 for_loop items
                   (λ opportunities item,
                      try_except
                        (item_opportunities ← _analyze_single_item item;
                         mret (opportunities ++ item_opportunities))
                        (λ e, mret opportunities))
                   []) w =
            (per_item ← each_individually items; mret (concat per_item)) w) as Hmany.
  { intros items. unfold try_except at 1.
    destruct (Hfail items w) as (e & ->).
    destruct (fallback_loop items [] w) as (per_item & w' & Heach & _ & ->).
    by rewrite (bind_returned _ _ _ _ _ Heach). }
  destruct batch as [|item [|item2 rest]]; [apply Hmany| |apply Hmany].
  cbn [each_individually]. rewrite bind_assoc.
  unfold mbind, M_bind.
  destruct (_analyze_batch [item] w) as [[found|e] w']; [|done].
  simpl. by rewrite app_nil_r.
Qed.

Lemma run_batches_as_items
    (batches : list (list ContentItem.t)) (batch_num total_batches : Z) (w : world) :
  (∀ items w0, ∃ e, _analyze_multiple_items items w0 = (Raise e, w0)) →
  run_batches None batch_num total_batches batches w =
  (per_item ← each_individually (concat batches); mret (concat per_item)) w.
Proof.
  intros Hfail. revert batch_num w.
  induction batches as [|batch rest IH]; intros batch_num w; [done|].
  cbn [run_batches concat notify].
  rewrite (bind_cong _ _ _ _ (each_individually_app batch (concat rest))), !bind_assoc.
  rewrite (bind_cong _ _ _ _ (λ w0, analyze_batch_as_items batch w0 Hfail)), !bind_assoc.
  apply bind_ext. intros found w1. rewrite !bind_ret_l.
  rewrite (bind_cong _ _ _ _ (IH (batch_num + 1))), !bind_assoc.
  apply bind_ext. intros others w2.
  by rewrite !bind_ret_l, concat_app.
Qed.

(** X13. As long as the consolidated call raises without doing anything,
    which is what the class does since it does not define the method, the
    batch size has no effect on the result: for every positive batch size and
    without a callback, [analyze_content_items] returns what the kept items
    yield one by one, put end to end in the order of the items, and raises
    nothing. *)
Theorem analyze_content_items_item_by_item (content_items : list ContentItem.t) (w : world) :
  0 < batch_size →
  (∀ items w0, ∃ e, _analyze_multiple_items items w0 = (Raise e, w0)) →
  ∃ per_item w',
    each_individually (kept_items content_items) w = (Ok per_item, w') ∧
    analyze_content_items content_items None w = (inl (concat per_item), w').
Proof.
  intros Hsize Hfail.
  destruct (each_individually_returns (kept_items content_items) w)
    as (per_item & w' & Heach).
  exists per_item, w'. split; [done|].
  rewrite analyze_content_items_runs_the_batches_aux by done.
  rewrite run_batches_as_items by done.
  rewrite (proj1 (batches_partition_aux (kept_items content_items) Hsize)).
  by rewrite (bind_returned _ _ _ _ _ Heach).
Qed.

(** X14. A progress callback that raises ends [analyze_content_items] with
    its exception after the first batch: when there is an item to analyse,
    the run returns no opportunity at all. *)
Theorem analyze_content_items_callback_failure
    (content_items : list ContentItem.t) (callback : Z → Z → M ()) (e : exn) (w : world) :
  0 < batch_size →
  kept_items content_items ≠ [] →
  (∀ batch_num total_batches w0, callback batch_num total_batches w0 = (Raise e, w0)) →
  ∃ w', analyze_content_items content_items (Some callback) w = (inr (Exception e), w').
Proof.
  intros Hsize Hitems Hraise.
  rewrite analyze_content_items_runs_the_batches_aux by done.
  destruct (batches_of (kept_items content_items)) as [|batch rest] eqn:Hbatches.
  - destruct Hitems.
    by rewrite <-(proj1 (batches_partition_aux (kept_items content_items) Hsize)), Hbatches.
  - cbn [run_batches notify].
    destruct (analyze_batch_returns batch w) as (found & w1 & Hbatch).
    rewrite (bind_returned _ _ _ _ _ Hbatch).
    rewrite (bind_raised _ _ _ _ _ (Hraise _ _ _)). by exists w1.
Qed.

(** *** The groups in general *)

Lemma marked_insert (visited : list bool) (opportunities : list Opp) (j : nat) (opp : Opp) :
  visited !! j = Some false → opportunities !! j = Some opp →
  marked (<[j:=true]> visited) opportunities ≡ₚ opp :: marked visited opportunities.
Proof.
  revert opportunities j.
  induction visited as [|seen visited IH]; intros [|first opportunities] [|j]; try done.
  - simpl. by intros [= ->] [= ->].
  - simpl. intros Hseen Hopp. specialize (IH opportunities j Hseen Hopp).
    destruct seen; [|done]. rewrite IH. apply perm_swap.
Qed.

Lemma marked_all (visited : list bool) (opportunities : list Opp) :
  length visited = length opportunities →
  (∀ k, (k < length opportunities)%nat → visited !! k = Some true) →
  marked visited opportunities = opportunities.
Proof.
  revert opportunities.
  induction visited as [|seen visited IH]; intros [|first opportunities]; try done.
  simpl. intros [= Hlen] Hall.
  pose proof (Hall 0%nat ltac:(lia)) as Hfirst. simpl in Hfirst. injection Hfirst as ->.
  f_equal. apply IH; [done|]. intros k Hk. apply (Hall (S k)). lia.
Qed.

Lemma marked_none (n : nat) (opportunities : list Opp) :
  marked (replicate n false) opportunities = [].
Proof.
  revert opportunities. induction n as [|n IH]; intros [|first opportunities]; try done.
  simpl. apply IH.
Qed.

Lemma index_lookup {A} (l : list A) (i : nat) (x : A) :
  l !! i = Some x → index l i = Ok x.
Proof. intros H. unfold index. by rewrite H. Qed.

Lemma result_bind_ok {A B} (a : A) (f : A → result B) : (Ok a ≫= f) = f a.
Proof. done. Qed.

(** The entries of the matrix of the texts of the opportunities. *)
Lemma similarity_matrix_entry (opportunities : list Opp) (i j : nat) (a b : Opp) :
  opportunities !! i = Some a → opportunities !! j = Some b →
  ∃ row,
    index (similarity_matrix_of (opportunity_text <$> opportunities)) i = Ok row ∧
    index row j = Ok (similarity (opportunity_text a) (opportunity_text b)).
Proof.
  intros Ha Hb. eexists. unfold index, similarity_matrix_of.
  rewrite !list_lookup_fmap, Ha. simpl. split; [done|].
  by rewrite !list_lookup_fmap, Hb.
Qed.

Lemma near_iff (a b : Opp) :
  Qle_bool similarity_threshold
    (similarity (opportunity_text a) (opportunity_text b)) = true ↔ near a b.
Proof. apply Qle_bool_iff. Qed.

Lemma for_each_ext {A S} (l : list A) (f g : S → A → result S) (s : S) :
  (∀ s x, f s x = g s x) → for_each l f s = for_each l g s.
Proof.
  intros Hfg. revert s. induction l as [|x l IH]; intros s; [done|].
  cbn [for_each]. rewrite Hfg. destruct (g s x) as [s'|e]; [apply IH|done].
Qed.

(** [_find_similarity_groups] with the bodies of its loops under their
    names. *)
Lemma find_similarity_groups_unfold
    (similarity_matrix : list (list Q)) (opportunities : list Opp) :
  _find_similarity_groups similarity_matrix opportunities =
  ('(_, groups) ←
     for_each (seq 0 (length opportunities)) (visit similarity_matrix opportunities)
       (replicate (length opportunities) false, []);
   Ok groups).
Proof.
  unfold _find_similarity_groups. f_equal. apply for_each_ext.
  intros [visited groups] i. unfold visit.
  destruct (index visited i) as [[]|]; [done| |done]. cbn [mbind result_bind].
  destruct (index opportunities i) as [seed|]; [|done]. cbn [mbind result_bind].
  f_equal. apply for_each_ext. by intros [visited' group] j.
Qed.

(** The inner loop of [_find_similarity_groups] from the seed at position
    [i]: it marks and appends the unmarked opportunities of the positions it
    visits that are near the seed, and leaves the others. *)
Lemma attach_loop
    (opportunities : list Opp) (i : nat) (seed : Opp) (positions : list nat)
    (visited : list bool) (group : list Opp) :
  opportunities !! i = Some seed →
  length visited = length opportunities →
  Forall (λ j, (j < length opportunities)%nat) positions →
  ∃ visited' members,
    for_each positions
      (attach (similarity_matrix_of (opportunity_text <$> opportunities))
         opportunities i)
      (visited, group) = Ok (visited', group ++ members) ∧
    length visited' = length opportunities ∧
    marked visited' opportunities ≡ₚ members ++ marked visited opportunities ∧
    (∀ k, visited !! k = Some true → visited' !! k = Some true) ∧
    Forall (near seed) members ∧
    (∀ j opp, j ∈ positions → visited' !! j = Some false →
       opportunities !! j = Some opp → ¬ near seed opp).
Proof.
  intros Hseed. revert visited group.
  induction positions as [|j positions IH]; intros visited group Hlen Hpos.
  - exists visited, []. rewrite app_nil_r. split_and!; try done.
    by intros ?? ?%elem_of_nil.
  - apply Forall_cons in Hpos as [Hj Hpos]. cbn [for_each].
    destruct (lookup_lt_is_Some_2 visited j) as [seen Hseen]; [lia|].
    destruct (lookup_lt_is_Some_2 opportunities j Hj) as [opp Hopp].
    unfold attach at 2.
    rewrite (index_lookup _ _ _ Hseen), result_bind_ok.
    destruct seen.
    + rewrite result_bind_ok.
      destruct (IH visited group Hlen Hpos)
        as (visited' & members & Hrun & Hlen' & Hmarked & Hmono & Hnear & Hfar).
      exists visited', members. split_and!; try done.
      intros j' opp' [->|Hin]%elem_of_cons Hunseen Hopp'; [|by eapply Hfar].
      rewrite (Hmono j Hseen) in Hunseen. done.
    + destruct (similarity_matrix_entry opportunities i j seed opp Hseed Hopp)
        as (row & Hrow & Hscore).
      rewrite Hrow, result_bind_ok, Hscore, result_bind_ok.
      destruct (Qle_bool similarity_threshold
                  (similarity (opportunity_text seed) (opportunity_text opp)))
        eqn:Hclose.
      * rewrite (index_lookup _ _ _ Hopp), !result_bind_ok.
        destruct (IH (<[j:=true]> visited) (group ++ [opp]))
          as (visited' & members & Hrun & Hlen' & Hmarked & Hmono & Hnear & Hfar);
          [by rewrite length_insert|done|].
        exists visited', (opp :: members). split_and!.
        -- rewrite Hrun. by rewrite <-app_assoc.
        -- done.
        -- rewrite Hmarked, (marked_insert _ _ _ _ Hseen Hopp).
           symmetry. apply Permutation_middle.
        -- intros k Hk. apply Hmono.
           destruct (decide (k = j)) as [->|Hne]; [congruence|].
           by rewrite list_lookup_insert_ne.
        -- constructor; [by apply near_iff|done].
        -- intros j' opp' [->|Hin]%elem_of_cons Hunseen Hopp'; [|by eapply Hfar].
           rewrite (Hmono j) in Hunseen; [done|].
           apply list_lookup_insert_eq. lia.
      * rewrite result_bind_ok.
        destruct (IH visited group Hlen Hpos)
          as (visited' & members & Hrun & Hlen' & Hmarked & Hmono & Hnear & Hfar).
        exists visited', members. split_and!; try done.
        intros j' opp' [->|Hin]%elem_of_cons Hunseen Hopp'; [|by eapply Hfar].
        intros Hnear'%near_iff.
        assert (opp' = opp) as -> by congruence. congruence.
Qed.

Lemma ForallOrdPairs_snoc {A} (P : A → A → Prop) (l : list A) (y : A) :
  ForallOrdPairs P l → Forall (λ x, P x y) l → ForallOrdPairs P (l ++ [y]).
Proof.
  induction 1 as [|x l Hx Hl IH]; intros Hy; simpl.
  - repeat constructor.
  - apply Forall_cons in Hy as [Hxy Hy]. constructor; [|by apply IH].
    apply Forall_app. split; [done|by constructor].
Qed.

(** The outer loop of [_find_similarity_groups] from position [i], when the
    positions before [i] are marked, the groups made so far hold the marked
    opportunities, and no unmarked opportunity is near a seed. *)
Lemma visit_loop
    (opportunities : list Opp) (count i : nat)
    (visited : list bool) (groups : list (list Opp)) :
  (i + count = length opportunities)%nat →
  length visited = length opportunities →
  (∀ k, (k < i)%nat → visited !! k = Some true) →
  concat groups ≡ₚ marked visited opportunities →
  Forall seeded_group groups →
  ForallOrdPairs apart groups →
  (∀ group seed k opp,
     group ∈ groups → head group = Some seed →
     visited !! k = Some false → opportunities !! k = Some opp → ¬ near seed opp) →
  ∃ visited' groups',
    for_each (seq i count)
      (visit (similarity_matrix_of (opportunity_text <$> opportunities)) opportunities)
      (visited, groups) = Ok (visited', groups') ∧
    length visited' = length opportunities ∧
    (∀ k, (k < length opportunities)%nat → visited' !! k = Some true) ∧
    concat groups' ≡ₚ marked visited' opportunities ∧
    Forall seeded_group groups' ∧
    ForallOrdPairs apart groups'.
Proof.
  revert i visited groups.
  induction count as [|count IH];
    intros i visited groups Hi Hlen Hdone Hmarked Hseeded Hapart Hfar.
  - exists visited, groups. split_and!; try done. intros k Hk. apply Hdone. lia.
  - cbn [seq for_each].
    destruct (lookup_lt_is_Some_2 visited i) as [seen Hseen]; [lia|].
    destruct (lookup_lt_is_Some_2 opportunities i) as [seed Hseed]; [lia|].
    unfold visit at 2. rewrite (index_lookup _ _ _ Hseen), result_bind_ok.
    destruct seen.
    + rewrite result_bind_ok. apply IH; try done; [lia|].
      intros k Hk. destruct (decide (k = i)) as [->|]; [done|]. apply Hdone. lia.
    + rewrite (index_lookup _ _ _ Hseed), result_bind_ok.
      destruct (attach_loop opportunities i seed
                  (seq (i + 1) (length opportunities - (i + 1)))
                  (<[i:=true]> visited) [seed] Hseed)
        as (visited1 & members & Hrun & Hlen1 & Hmarked1 & Hmono & Hnear & Hfar1).
      { by rewrite length_insert. }
      { apply Forall_forall. intros j Hj%elem_of_seq. lia. }
      rewrite Hrun, !result_bind_ok.
      assert (visited1 !! i = Some true) as Hi1.
      { apply Hmono, list_lookup_insert_eq. lia. }
      assert (∀ k, visited1 !! k = Some false → visited !! k = Some false) as Hback.
      { intros k Hk.
        destruct (visited !! k) as [[]|] eqn:Hvk.
        - rewrite (Hmono k) in Hk; [done|].
          destruct (decide (k = i)) as [->|]; [congruence|].
          by rewrite list_lookup_insert_ne.
        - done.
        - apply lookup_ge_None in Hvk. apply lookup_lt_Some in Hk. lia. }
      apply IH; try done.
      * lia.
      * intros k Hk. destruct (decide (k = i)) as [->|]; [done|].
        apply Hmono. rewrite list_lookup_insert_ne by done. apply Hdone. lia.
      * rewrite concat_app, Hmarked1, (marked_insert _ _ _ _ Hseen Hseed), Hmarked.
        simpl. rewrite app_nil_r.
        rewrite (Permutation_app_comm (marked visited opportunities)).
        simpl. apply Permutation_middle.
      * apply Forall_app. split; [done|]. constructor; [|done]. by exists seed, members.
      * apply ForallOrdPairs_snoc; [done|]. apply Forall_forall.
        intros group Hgroup seed1 seed2 Hseed1 [= <-].
        by apply (Hfar group seed1 i seed).
      * intros group seed' k opp [Hgroup|Hnew]%elem_of_app Hhead Hk Hopp.
        -- apply (Hfar group seed' k opp); auto.
        -- apply list_elem_of_singleton in Hnew as ->. injection Hhead as <-.
           destruct (decide (k ∈ seq (i + 1) (length opportunities - (i + 1))))
             as [Hin|Hout]; [by eapply Hfar1|].
           rewrite elem_of_seq in Hout. apply lookup_lt_Some in Hopp.
           assert (k < i ∨ k = i)%nat as [Hlt| ->] by lia.
           ++ rewrite (Hmono k) in Hk; [done|].
              rewrite list_lookup_insert_ne by lia. apply Hdone. lia.
           ++ congruence.
Qed.

(** What [_find_similarity_groups] does to the matrix of the texts of the
    opportunities. *)
Lemma find_similarity_groups_spec (opportunities : list Opp) :
  ∃ groups,
    _find_similarity_groups
      (similarity_matrix_of (opportunity_text <$> opportunities)) opportunities
      = Ok groups ∧
    concat groups ≡ₚ opportunities ∧
    Forall seeded_group groups ∧
    ForallOrdPairs apart groups.
Proof.
  rewrite find_similarity_groups_unfold.
  destruct (visit_loop opportunities (length opportunities) 0
              (replicate (length opportunities) false) [])
    as (visited & groups & Hrun & Hlen & Hall & Hmarked & Hseeded & Hapart).
  - done.
  - by rewrite length_replicate.
  - intros k Hk. lia.
  - by rewrite marked_none.
  - done.
  - constructor.
  - by intros ???? ?%elem_of_nil.
  - exists groups. rewrite Hrun. split_and!; try done.
    by rewrite Hmarked, marked_all.
Qed.

(** X15. On the matrix of the texts of the opportunities,
    [_find_similarity_groups] raises nothing and returns a partition: the
    groups put end to end are a permutation of the opportunities, no group
    is empty, and there are at most as many groups as opportunities. *)
Theorem similarity_groups_partition (opportunities : list Opp) :
  ∃ groups,
    _find_similarity_groups
      (similarity_matrix_of (opportunity_text <$> opportunities)) opportunities
      = Ok groups ∧
    concat groups ≡ₚ opportunities ∧
    Forall (λ group, group ≠ []) groups ∧
    (length groups ≤ length opportunities)%nat.
Proof.
  destruct (find_similarity_groups_spec opportunities)
    as (groups & Hrun & Hperm & Hseeded & _).
  assert (Forall (λ group : list Opp, group ≠ []) groups) as Hfull.
  { eapply Forall_impl; [exact Hseeded|]. by intros group (seed & members & -> & _). }
  exists groups. split_and!; try done.
  rewrite <-Hperm. clear -Hfull.
  induction Hfull as [|group groups Hgroup _ IH]; [done|].
  simpl. rewrite length_app. destruct group; [done|]. simpl. lia.
Qed.

(** X16. Every group starts with its seed, and every other member of the
    group is at or above the threshold to the seed; nothing is said of two
    members. *)
Theorem similarity_groups_members_near_seed (opportunities : list Opp) :
  ∃ groups,
    _find_similarity_groups
      (similarity_matrix_of (opportunity_text <$> opportunities)) opportunities
      = Ok groups ∧
    Forall
      (λ group,
         ∃ seed members,
           group = seed :: members ∧
           Forall
             (λ member,
                (similarity_threshold <=
                 similarity (opportunity_text seed) (opportunity_text member))%Q)
             members)
      groups.
Proof.
  destruct (find_similarity_groups_spec opportunities)
    as (groups & Hrun & _ & Hseeded & _).
  by exists groups.
Qed.

(** X17. The seed of a group is below the threshold to the seed of every
    group that comes before it: an opportunity that is near an earlier seed
    never starts a group. *)
Theorem similarity_groups_seeds_apart (opportunities : list Opp) :
  ∃ groups,
    _find_similarity_groups
      (similarity_matrix_of (opportunity_text <$> opportunities)) opportunities
      = Ok groups ∧
    ForallOrdPairs
      (λ earlier later,
         ∀ seed1 seed2, head earlier = Some seed1 → head later = Some seed2 →
           (similarity (opportunity_text seed1) (opportunity_text seed2)
            < similarity_threshold)%Q)
      groups.
Proof.
  destruct (find_similarity_groups_spec opportunities)
    as (groups & Hrun & _ & _ & Hapart).
  exists groups. split; [done|].
  clear Hrun. induction Hapart as [|group groups Hgroup _ IH]; constructor; [|done].
  eapply Forall_impl; [exact Hgroup|].
  intros later Hfar seed1 seed2 H1 H2. apply Qnot_le_lt. by apply (Hfar seed1 seed2).
Qed.

(** When no opportunity is near an earlier one, the inner loop changes
    nothing. *)
Lemma attach_nothing
    (opportunities : list Opp) (i : nat) (seed : Opp) (positions : list nat)
    (visited : list bool) (group : list Opp) :
  (∀ j b, (i < j)%nat → opportunities !! j = Some b → ¬ near seed b) →
  opportunities !! i = Some seed →
  length visited = length opportunities →
  Forall (λ j, (i < j < length opportunities)%nat) positions →
  for_each positions
    (attach (similarity_matrix_of (opportunity_text <$> opportunities)) opportunities i)
    (visited, group) = Ok (visited, group).
Proof.
  intros Hfar Hseed Hlen Hpos.
  induction Hpos as [|j positions Hj _ IH]; [done|]. cbn [for_each].
  destruct (lookup_lt_is_Some_2 visited j) as [seen Hseen]; [lia|].
  destruct (lookup_lt_is_Some_2 opportunities j) as [opp Hopp]; [lia|].
  unfold attach at 2. rewrite (index_lookup _ _ _ Hseen), result_bind_ok.
  destruct seen; [by rewrite result_bind_ok|].
  destruct (similarity_matrix_entry opportunities i j seed opp Hseed Hopp)
    as (row & Hrow & Hscore).
  rewrite Hrow, result_bind_ok, Hscore, result_bind_ok.
  destruct (Qle_bool similarity_threshold _) eqn:Hclose; [|by rewrite result_bind_ok].
  apply near_iff in Hclose. destruct (Hfar j opp); [lia|done..].
Qed.

Lemma visit_nothing (opportunities : list Opp) (count i : nat) :
  (∀ i j a b, (i < j)%nat →
     opportunities !! i = Some a → opportunities !! j = Some b → ¬ near a b) →
  (i + count = length opportunities)%nat →
  for_each (seq i count)
    (visit (similarity_matrix_of (opportunity_text <$> opportunities)) opportunities)
    (replicate i true ++ replicate count false, (λ opp, [opp]) <$> take i opportunities)
  = Ok (replicate (length opportunities) true, (λ opp, [opp]) <$> opportunities).
Proof.
  intros Hfar. revert i. induction count as [|count IH]; intros i Hi.
  - simpl. rewrite app_nil_r, Nat.add_0_r in *. subst i. by rewrite take_ge.
  - cbn [seq for_each].
    destruct (lookup_lt_is_Some_2 opportunities i) as [seed Hseed]; [lia|].
    assert ((replicate i true ++ replicate (S count) false) !! i = Some false) as Hseen.
    { rewrite lookup_app_r by (rewrite length_replicate; lia).
      rewrite length_replicate, Nat.sub_diag. done. }
    unfold visit at 2.
    rewrite (index_lookup _ _ _ Hseen), result_bind_ok.
    rewrite (index_lookup _ _ _ Hseed), result_bind_ok.
    assert (<[i:=true]> (replicate i true ++ replicate (S count) false) =
            replicate (S i) true ++ replicate count false) as ->.
    { rewrite insert_app_r_alt by (rewrite length_replicate; lia).
      rewrite length_replicate, Nat.sub_diag. simpl.
      by rewrite (cons_middle true), app_assoc, <-replicate_cons_app. }
    rewrite (attach_nothing opportunities i seed); try done.
    + rewrite !result_bind_ok.
      replace (((λ opp : Opp, [opp]) <$> take i opportunities) ++ [[seed]])
        with ((λ opp : Opp, [opp]) <$> take (S i) opportunities).
      * apply IH. lia.
      * by rewrite (take_S_r _ _ _ Hseed), fmap_app.
    + intros j b Hj Hb. by apply (Hfar i j seed b).
    + rewrite length_app, !length_replicate. lia.
    + apply Forall_forall. intros j Hj%elem_of_seq. lia.
Qed.

(** Groups of one member each, when nothing is near anything earlier. *)
Lemma find_similarity_groups_all_apart (opportunities : list Opp) :
  (∀ i j a b, (i < j)%nat →
     opportunities !! i = Some a → opportunities !! j = Some b →
     (similarity (opportunity_text a) (opportunity_text b) < similarity_threshold)%Q) →
  _find_similarity_groups
    (similarity_matrix_of (opportunity_text <$> opportunities)) opportunities
    = Ok ((λ opp, [opp]) <$> opportunities).
Proof.
  intros Hfar. rewrite find_similarity_groups_unfold.
  pose proof (visit_nothing opportunities (length opportunities) 0) as Hloop.
  simpl in Hloop. rewrite Hloop; [done| |done].
  intros i j a b Hij Ha Hb. apply Qlt_not_le. by apply (Hfar i j).
Qed.

(** X18. When no opportunity is at or above the threshold to an earlier
    one, [_find_similarity_groups] puts every opportunity in a group of its
    own, in the order of the list. *)
Theorem similarity_groups_all_apart (opportunities : list Opp) :
  (∀ i j a b, (i < j)%nat →
     opportunities !! i = Some a → opportunities !! j = Some b →
     (similarity (opportunity_text a) (opportunity_text b) < similarity_threshold)%Q) →
  _find_similarity_groups
    (similarity_matrix_of (opportunity_text <$> opportunities)) opportunities
    = Ok ((λ opp, [opp]) <$> opportunities).
Proof. apply find_similarity_groups_all_apart. Qed.

(** *** The fields of a merge *)

(** What the loop of [_merge_opportunity_group] accumulates. *)
Lemma accumulate_fold (base_opp : Opp) (opportunities : list Opp)
    (all_sources : list string) (all_keywords : gset string)
    (total_frequency : Z) (merged_ids : list string) :
  foldl (accumulate base_opp)
    (all_sources, all_keywords, total_frequency, merged_ids) opportunities =
  (all_sources ++ concat (Opportunity.sources <$> opportunities),
   all_keywords ∪ list_to_set (concat (Opportunity.keywords <$> opportunities)),
   total_frequency + total (Opportunity.frequency <$> opportunities),
   merged_ids ++
     filter (λ i, i ≠ Opportunity.id base_opp) (Opportunity.id <$> opportunities)).
Proof.
  revert all_sources all_keywords total_frequency merged_ids.
  induction opportunities as [|opp rest IH]; intros a k t m.
  - simpl. rewrite filter_nil, !app_nil_r, (right_id_L ∅ (∪)), Z.add_0_r. done.
  - cbn [foldl accumulate]. rewrite !fmap_cons, total_cons, filter_cons.
    cbn [concat]. rewrite list_to_set_app_L.
    destruct (decide (Opportunity.id opp ≠ Opportunity.id base_opp)).
    + rewrite IH. by rewrite <-!app_assoc, (assoc_L (∪)), Z.add_assoc.
    + rewrite IH. by rewrite <-!app_assoc, (assoc_L (∪)), Z.add_assoc.
Qed.

(** The merge of a group of two or more members, field by field. *)
Lemma merge_opportunity_group_fields (base_opp second : Opp) (rest : list Opp) (w : world) :
  _merge_opportunity_group (base_opp :: second :: rest) w =
  (Ok {|
     Opportunity.id := Opportunity.id base_opp;
     Opportunity.title := Opportunity.title base_opp;
     Opportunity.description :=
       _merge_descriptions (Opportunity.description <$> base_opp :: second :: rest);
     Opportunity.category := Opportunity.category base_opp;
     Opportunity.severity :=
       _get_highest_severity (Opportunity.severity <$> base_opp :: second :: rest);
     Opportunity.frequency :=
       total (Opportunity.frequency <$> base_opp :: second :: rest);
     Opportunity.sources :=
       elements (list_to_set
                   (concat (Opportunity.sources <$> base_opp :: second :: rest))
                 : gset string);
     Opportunity.keywords :=
       elements (list_to_set
                   (concat (Opportunity.keywords <$> base_opp :: second :: rest))
                 : gset string);
     Opportunity.created_at :=
       py_min (Opportunity.created_at base_opp)
              (Opportunity.created_at <$> second :: rest);
     Opportunity.updated_at := (datetime_now w).1;
     Opportunity.processing_date :=
       py_min (Opportunity.processing_date base_opp)
              (Opportunity.processing_date <$> second :: rest);
     Opportunity.status := Opportunity.status base_opp;
     Opportunity.comments := Opportunity.comments base_opp;
     Opportunity.merged_from :=
       filter (λ i, i ≠ Opportunity.id base_opp)
              (Opportunity.id <$> base_opp :: second :: rest)
   |}, (datetime_now w).2).
Proof.
  unfold _merge_opportunity_group. rewrite accumulate_fold.
  rewrite (left_id_L ∅ (∪)), Z.add_0_l, !app_nil_l.
  unfold mbind, M_bind, now, mret, M_ret. by destruct (datetime_now w) as [time w'].
Qed.

(** [min] of a first value and others is one of them, and none is below. *)
Lemma py_min_spec (x : datetime) (rest : list datetime) :
  py_min x rest ∈ x :: rest ∧ Forall (λ y, py_min x rest ≤ y) (x :: rest).
Proof.
  unfold py_min. revert x. induction rest as [|y rest IH]; intros x; simpl.
  - split; [apply list_elem_of_here|]. apply Forall_singleton. lia.
  - destruct (IH (x `min` y)) as [Hin Hle]. split.
    + apply elem_of_cons in Hin as [Hin|Hin].
      * rewrite Hin. destruct (Z.min_spec x y) as [[_ ->]|[_ ->]].
        -- apply list_elem_of_here.
        -- apply list_elem_of_further, list_elem_of_here.
      * by do 2 apply list_elem_of_further.
    + apply Forall_cons in Hle as [Hxy Hle].
      apply Forall_cons; split; [lia|]. apply Forall_cons; split; [lia|done].
Qed.

Lemma elem_of_concat_fmap {A} (field : Opp → list A) (opportunities : list Opp) (x : A) :
  x ∈ concat (field <$> opportunities) ↔ among field opportunities x.
Proof.
  unfold among. induction opportunities as [|opp rest IH].
  - simpl. split; [by intros ?%elem_of_nil|]. by intros (? & ?%elem_of_nil & _).
  - rewrite fmap_cons. cbn [concat]. rewrite elem_of_app, IH. split.
    + intros [Hx|(opp' & Hin & Hx)].
      * exists opp. split; [apply list_elem_of_here|done].
      * exists opp'. split; [by apply list_elem_of_further|done].
    + intros (opp' & [->|Hin]%elem_of_cons & Hx); [by left|].
      right. by exists opp'.
Qed.

Lemma among_singleton {A} (field : Opp → list A) (opp : Opp) (x : A) :
  among field [opp] x ↔ x ∈ field opp.
Proof.
  unfold among. split.
  - by intros (opp' & ->%list_elem_of_singleton & Hx).
  - intros Hx. exists opp. split; [apply list_elem_of_here|done].
Qed.

(** X19. The merge of two or more members lists in [merged_from] the ids of
    the other members, in their order, except those equal to the id of the
    first member; the id of the merge is never in the list, and what the
    members had in [merged_from] is not carried over. *)
Theorem merged_from_lists_the_other_ids
    (base_opp second : Opp) (rest : list Opp) (w : world) :
  ∃ merged w',
    _merge_opportunity_group (base_opp :: second :: rest) w = (Ok merged, w') ∧
    Opportunity.merged_from merged =
      filter (λ i, i ≠ Opportunity.id base_opp) (Opportunity.id <$> second :: rest) ∧
    Opportunity.id merged ∉ Opportunity.merged_from merged.
Proof.
  eexists _, _. split; [apply merge_opportunity_group_fields|].
  cbn [Opportunity.merged_from Opportunity.id].
  rewrite fmap_cons, filter_cons_False by (intros Hne; by apply Hne).
  split; [done|]. intros [Hne _]%list_elem_of_filter. by apply Hne.
Qed.

(** X20. The sources of the merge of a non-empty group are the sources of
    its members, and its keywords are their keywords: nothing is lost and
    nothing is added. *)
Theorem merged_sources_and_keywords_are_the_members (cluster : list Opp) (w : world) :
  cluster ≠ [] →
  ∃ merged w',
    _merge_opportunity_group cluster w = (Ok merged, w') ∧
    (∀ source,
       source ∈ Opportunity.sources merged ↔ among Opportunity.sources cluster source) ∧
    (∀ keyword,
       keyword ∈ Opportunity.keywords merged ↔ among Opportunity.keywords cluster keyword).
Proof.
  intros Hne. destruct cluster as [|base_opp [|second rest]]; [done| |].
  - exists base_opp, w. split; [done|].
    split; intros x; by rewrite among_singleton.
  - eexists _, _. split; [apply merge_opportunity_group_fields|].
    cbn [Opportunity.sources Opportunity.keywords].
    split; intros x; by rewrite elem_of_elements, elem_of_list_to_set, elem_of_concat_fmap.
Qed.

(** X21. The merge of two or more members has no source and no keyword
    twice, whatever repetitions its members had. *)
Theorem merged_sources_and_keywords_without_duplicates
    (base_opp second : Opp) (rest : list Opp) (w : world) :
  ∃ merged w',
    _merge_opportunity_group (base_opp :: second :: rest) w = (Ok merged, w') ∧
    NoDup (Opportunity.sources merged) ∧
    NoDup (Opportunity.keywords merged).
Proof.
  eexists _, _. split; [apply merge_opportunity_group_fields|].
  split; apply NoDup_elements.
Qed.

(** X22. The creation date of the merge of a non-empty group is the
    earliest creation date of its members, and its processing date the
    earliest of their processing dates. *)
Theorem merged_dates_are_the_earliest (cluster : list Opp) (w : world) :
  cluster ≠ [] →
  ∃ merged w',
    _merge_opportunity_group cluster w = (Ok merged, w') ∧
    Opportunity.created_at merged ∈ Opportunity.created_at <$> cluster ∧
    Forall (λ opp, Opportunity.created_at merged ≤ Opportunity.created_at opp) cluster ∧
    Opportunity.processing_date merged ∈ Opportunity.processing_date <$> cluster ∧
    Forall (λ opp, Opportunity.processing_date merged ≤ Opportunity.processing_date opp)
      cluster.
Proof.
  intros Hne. destruct cluster as [|base_opp [|second rest]]; [done| |].
  - exists base_opp, w. split; [done|].
    split_and!; first [apply list_elem_of_here | apply Forall_singleton; lia].
  - eexists _, _. split; [apply merge_opportunity_group_fields|].
    cbn [Opportunity.created_at Opportunity.processing_date].
    destruct (py_min_spec (Opportunity.created_at base_opp)
                (Opportunity.created_at <$> second :: rest)) as [Hin1 Hle1].
    destruct (py_min_spec (Opportunity.processing_date base_opp)
                (Opportunity.processing_date <$> second :: rest)) as [Hin2 Hle2].
    split_and!; [done| |done|].
    + change (Opportunity.created_at base_opp :: (Opportunity.created_at <$> second :: rest))
        with (Opportunity.created_at <$> base_opp :: second :: rest) in Hle1.
      by apply (Forall_fmap Opportunity.created_at) in Hle1.
    + change (Opportunity.processing_date base_opp ::
                (Opportunity.processing_date <$> second :: rest))
        with (Opportunity.processing_date <$> base_opp :: second :: rest) in Hle2.
      by apply (Forall_fmap Opportunity.processing_date) in Hle2.
Qed.

(** *** Deduplication *)

Lemma merge_opportunity_group_like (group : list Opp) (w : world) :
  group ≠ [] →
  ∃ merged w',
    _merge_opportunity_group group w = (Ok merged, w') ∧ merged_like group merged.
Proof.
  intros Hne. destruct group as [|base_opp [|second rest]]; [done| |].
  - exists base_opp, w. split; [done|]. split_and!.
    + by exists base_opp.
    + rewrite fmap_cons, total_cons. simpl. lia.
    + intros x. by rewrite among_singleton.
    + intros x. by rewrite among_singleton.
  - eexists _, _. split; [apply merge_opportunity_group_fields|]. split_and!.
    + by exists base_opp.
    + done.
    + intros x. cbn [Opportunity.sources].
      by rewrite elem_of_elements, elem_of_list_to_set, elem_of_concat_fmap.
    + intros x. cbn [Opportunity.keywords].
      by rewrite elem_of_elements, elem_of_list_to_set, elem_of_concat_fmap.
Qed.

Lemma merges_to_like (group : list Opp) (merged : Opp) :
  merges_to group merged → merged_like group merged.
Proof.
  intros (w & w' & Hrun).
  destruct (merge_opportunity_group_like group w) as (merged' & w'' & Hrun' & Hlike).
  { by intros ->. }
  rewrite Hrun in Hrun'. by injection Hrun' as -> _.
Qed.

(** The loop of [deduplicate_opportunities] over groups none of which is
    empty. *)
Lemma merge_loop (groups : list (list Opp)) (merged_opportunities : list Opp) (w : world) :
  Forall (λ group, group ≠ []) groups →
  ∃ merged w',
    for_loop groups
      (λ merged_opportunities group,
         merged_opp ← _merge_opportunity_group group;
         mret (merged_opportunities ++ [merged_opp]))
      merged_opportunities w = (Ok (merged_opportunities ++ merged), w') ∧
    Forall2 merges_to groups merged.
Proof.
  intros Hfull. revert merged_opportunities w.
  induction Hfull as [|group groups Hgroup _ IH]; intros merged_opportunities w.
  - exists [], w. by rewrite app_nil_r.
  - assert (∃ merged_opp w1, _merge_opportunity_group group w = (Ok merged_opp, w1))
      as (merged_opp & w1 & Hrun).
    { destruct group as [|base_opp [|second rest]]; [done|..].
      + by exists base_opp, w.
      + eexists _, _. apply merge_opportunity_group_fields. }
    destruct (IH (merged_opportunities ++ [merged_opp]) w1) as (merged & w' & Hloop & Hall).
    exists (merged_opp :: merged), w'. split.
    + cbn [for_loop]. rewrite bind_assoc, (bind_returned _ _ _ _ _ Hrun), bind_ret_l.
      rewrite Hloop. by rewrite <-app_assoc.
    + constructor; [|done]. by exists w, w1.
Qed.

(** [deduplicate_opportunities] groups, then merges group by group. *)
Lemma deduplicate_opportunities_spec (opportunities : list Opp) (w : world) :
  ∃ groups merged w',
    _find_similarity_groups
      (similarity_matrix_of (opportunity_text <$> opportunities)) opportunities
      = Ok groups ∧
    deduplicate_opportunities opportunities w = (Ok merged, w') ∧
    concat groups ≡ₚ opportunities ∧
    Forall seeded_group groups ∧
    ForallOrdPairs apart groups ∧
    Forall2 merges_to groups merged.
Proof.
  destruct opportunities as [|opp rest].
  - exists [], [], w. split_and!; try done; constructor.
  - destruct (find_similarity_groups_spec (opp :: rest))
      as (groups & Hrun & Hperm & Hseeded & Hapart).
    destruct (merge_loop groups [] w) as (merged & w' & Hloop & Hall).
    { eapply Forall_impl; [exact Hseeded|]. by intros group (seed & members & -> & _). }
    exists groups, merged, w'. split_and!; try done.
    unfold deduplicate_opportunities. by rewrite bind_lift, Hrun.
Qed.

Lemma total_app (l1 l2 : list Z) : total (l1 ++ l2) = total l1 + total l2.
Proof.
  induction l1 as [|x l1 IH]; [done|].
  change (total (x :: (l1 ++ l2)) = total (x :: l1) + total l2).
  rewrite !total_cons, IH. lia.
Qed.

Lemma total_permutation (l1 l2 : list Z) : l1 ≡ₚ l2 → total l1 = total l2.
Proof.
  induction 1 as [|x l1 l2 _ IH|x y l|l1 l2 l3 _ IH1 _ IH2].
  - done.
  - by rewrite !total_cons, IH.
  - rewrite !total_cons. lia.
  - by rewrite IH1.
Qed.

(** What the groups and their merges have in common, summed or collected
    over the groups. *)
Lemma merged_groups_like (groups : list (list Opp)) (merged : list Opp) :
  Forall2 merges_to groups merged →
  length merged = length groups ∧
  total (Opportunity.frequency <$> merged) =
    total (Opportunity.frequency <$> concat groups) ∧
  (∀ source, among Opportunity.sources merged source ↔
             among Opportunity.sources (concat groups) source) ∧
  (∀ keyword, among Opportunity.keywords merged keyword ↔
              among Opportunity.keywords (concat groups) keyword) ∧
  Forall (λ merged_opp, ∃ opp, opp ∈ concat groups ∧
            Opportunity.id merged_opp = Opportunity.id opp ∧
            Opportunity.title merged_opp = Opportunity.title opp ∧
            Opportunity.category merged_opp = Opportunity.category opp ∧
            Opportunity.status merged_opp = Opportunity.status opp ∧
            Opportunity.comments merged_opp = Opportunity.comments opp) merged.
Proof.
  assert (∀ {A} (field : Opp → list A) l1 l2 x,
            among field (l1 ++ l2) x ↔ among field l1 x ∨ among field l2 x) as Happ.
  { intros A field l1 l2 x. unfold among. split.
    - intros (opp & [Hin|Hin]%elem_of_app & Hx); [left|right]; by exists opp.
    - intros [(opp & Hin & Hx)|(opp & Hin & Hx)]; exists opp;
        (split; [apply elem_of_app; auto|done]). }
  assert (∀ {A} (field : Opp → list A) (opp : Opp) l x,
            among field (opp :: l) x ↔ x ∈ field opp ∨ among field l x) as Hcons.
  { intros A field opp l x.
    change (opp :: l) with ([opp] ++ l). by rewrite Happ, among_singleton. }
  induction 1 as [|group merged_opp groups merged Hmerge _ IH].
  - by split_and!.
  - destruct IH as (Hlen & Hfreq & Hsources & Hkeywords & Hid).
    apply merges_to_like in Hmerge
      as ((base_opp & Hbase & Hfields) & Hfreq1 & Hsources1 & Hkeywords1).
    cbn [concat]. split_and!.
    + simpl. by rewrite Hlen.
    + rewrite fmap_cons, total_cons, fmap_app, total_app, Hfreq, Hfreq1. done.
    + intros x. by rewrite Hcons, Happ, Hsources1, Hsources.
    + intros x. by rewrite Hcons, Happ, Hkeywords1, Hkeywords.
    + constructor.
      * exists base_opp. split; [|done]. apply elem_of_app. left.
        destruct group; [done|]. injection Hbase as ->. apply list_elem_of_here.
      * eapply Forall_impl; [exact Hid|].
        intros m (opp & Hin & Hrest). exists opp. split; [|done].
        apply elem_of_app. by right.
Qed.

Lemma among_permutation {A} (field : Opp → list A) (l1 l2 : list Opp) (x : A) :
  l1 ≡ₚ l2 → among field l1 x ↔ among field l2 x.
Proof.
  intros Hperm. unfold among. split; intros (opp & Hin & Hx); exists opp.
  - by rewrite <-Hperm.
  - by rewrite Hperm.
Qed.

(** X23. On opportunities whose title, description, category and severity
    are strings and whose keywords are a list of strings, the types their
    fields are annotated with, [deduplicate_opportunities] returns a list,
    whatever the scores of the backend: at most as many opportunities as it
    was given, and none exactly when it was given none. Opportunities that
    hold other values in these fields are not in the domain of the
    statement. *)
Theorem deduplicate_opportunities_returns_no_more_than_given (opportunities : list Opp) (w : world) :
  ∃ merged w',
    deduplicate_opportunities opportunities w = (Ok merged, w') ∧
    (length merged ≤ length opportunities)%nat ∧
    (merged = [] ↔ opportunities = []).
Proof.
  destruct (deduplicate_opportunities_spec opportunities w)
    as (groups & merged & w' & _ & Hrun & Hperm & Hseeded & _ & Hmerged).
  exists merged, w'. split; [done|].
  apply merged_groups_like in Hmerged as (Hlen & _).
  assert (Forall (λ group : list Opp, group ≠ []) groups) as Hfull.
  { eapply Forall_impl; [exact Hseeded|]. by intros group (seed & members & -> & _). }
  assert (length groups ≤ length (concat groups))%nat as Hle.
  { clear -Hfull. induction Hfull as [|group groups Hgroup _ IH]; [done|].
    simpl. rewrite length_app. destruct group; [done|]. simpl. lia. }
  pose proof (Permutation_length Hperm) as Hsame.
  split; [lia|]. split.
  - intros ->. destruct groups; [|done]. by destruct opportunities.
  - intros ->. destruct merged; [done|]. simpl in *. lia.
Qed.

(** X24. Deduplication preserves the total frequency: the frequencies of the
    opportunities returned add up to those of the opportunities given. *)
Theorem deduplicate_opportunities_preserves_frequency
    (opportunities : list Opp) (w : world) :
  ∃ merged w',
    deduplicate_opportunities opportunities w = (Ok merged, w') ∧
    total (Opportunity.frequency <$> merged) =
      total (Opportunity.frequency <$> opportunities).
Proof.
  destruct (deduplicate_opportunities_spec opportunities w)
    as (groups & merged & w' & Hgroups & Hrun & Hperm & _ & _ & Hmerged).
  exists merged, w'. split; [done|].
  apply merged_groups_like in Hmerged as (_ & Hfreq & _).
  rewrite Hfreq. apply total_permutation. by rewrite Hperm.
Qed.

(** X25. Deduplication loses no source and no keyword and invents none: the
    sources found in the opportunities returned are those found in the
    opportunities given, and so are the keywords. *)
Theorem deduplicate_opportunities_preserves_sources_and_keywords
    (opportunities : list Opp) (w : world) :
  ∃ merged w',
    deduplicate_opportunities opportunities w = (Ok merged, w') ∧
    (∀ source, among Opportunity.sources merged source ↔
               among Opportunity.sources opportunities source) ∧
    (∀ keyword, among Opportunity.keywords merged keyword ↔
                among Opportunity.keywords opportunities keyword).
Proof.
  destruct (deduplicate_opportunities_spec opportunities w)
    as (groups & merged & w' & Hgroups & Hrun & Hperm & _ & _ & Hmerged).
  exists merged, w'. split; [done|].
  apply merged_groups_like in Hmerged as (_ & _ & Hsources & Hkeywords & _).
  split; intros x.
  - rewrite Hsources. by apply among_permutation.
  - rewrite Hkeywords. by apply among_permutation.
Qed.

Lemma merged_groups_seeds (opportunities : list Opp)
    (groups : list (list Opp)) (merged : list Opp) :
  Forall2 merges_to groups merged →
  (∀ opp, opp ∈ concat groups → opp ∈ opportunities) →
  Forall2
    (λ group merged_opp,
       ∃ seed, head group = Some seed ∧ seed ∈ opportunities ∧
         Opportunity.id merged_opp = Opportunity.id seed ∧
         Opportunity.title merged_opp = Opportunity.title seed ∧
         Opportunity.category merged_opp = Opportunity.category seed ∧
         Opportunity.status merged_opp = Opportunity.status seed ∧
         Opportunity.comments merged_opp = Opportunity.comments seed)
    groups merged.
Proof.
  induction 1 as [|group merged_opp groups merged Hmerge _ IH]; intros Hin.
  - constructor.
  - constructor.
    + apply merges_to_like in Hmerge as ((seed & Hseed & Hfields) & _).
      exists seed. split; [done|]. split; [|done].
      apply Hin. cbn [concat]. apply elem_of_app. left.
      destruct group; [done|]. injection Hseed as ->. apply list_elem_of_here.
    + apply IH. intros opp Hopp. apply Hin. cbn [concat]. apply elem_of_app. by right.
Qed.

(** X26. Deduplication returns one opportunity for each group that
    [_find_similarity_groups] makes of the opportunities, in the order of the
    groups, and each carries the id, the title, the category, the status and
    the comments of the seed of its group, the first member of the group,
    which is one of the opportunities given. *)
Theorem deduplicate_opportunities_keeps_the_seed_identity
    (opportunities : list Opp) (w : world) :
  ∃ groups merged w',
    _find_similarity_groups
      (similarity_matrix_of (opportunity_text <$> opportunities)) opportunities
      = Ok groups ∧
    deduplicate_opportunities opportunities w = (Ok merged, w') ∧
    Forall2
      (λ group merged_opp,
         ∃ seed, head group = Some seed ∧ seed ∈ opportunities ∧
           Opportunity.id merged_opp = Opportunity.id seed ∧
           Opportunity.title merged_opp = Opportunity.title seed ∧
           Opportunity.category merged_opp = Opportunity.category seed ∧
           Opportunity.status merged_opp = Opportunity.status seed ∧
           Opportunity.comments merged_opp = Opportunity.comments seed)
      groups merged.
Proof.
  destruct (deduplicate_opportunities_spec opportunities w)
    as (groups & merged & w' & Hgroups & Hrun & Hperm & _ & _ & Hmerged).
  exists groups, merged, w'. split_and!; [done..|].
  apply merged_groups_seeds; [done|].
  intros opp Hopp. by rewrite <-Hperm.
Qed.

Lemma merge_loop_singletons (opportunities merged_opportunities : list Opp) (w : world) :
  for_loop ((λ opp, [opp]) <$> opportunities)
    (λ merged_opportunities group,
       merged_opp ← _merge_opportunity_group group;
       mret (merged_opportunities ++ [merged_opp]))
    merged_opportunities w = (Ok (merged_opportunities ++ opportunities), w).
Proof.
  revert merged_opportunities. induction opportunities as [|opp rest IH]; intros acc.
  - by rewrite app_nil_r.
  - rewrite fmap_cons. cbn [for_loop].
    rewrite bind_assoc, (bind_returned _ _ w w opp) by done.
    rewrite bind_ret_l, IH. by rewrite <-app_assoc.
Qed.

(** X27. When no opportunity reaches the threshold with an earlier one,
    deduplication returns the opportunities as they were given, in their
    order, and does not read the clock; so it does for an empty list. *)
Theorem deduplicate_opportunities_leaves_distinct_ones
    (opportunities : list Opp) (w : world) :
  (∀ i j a b, (i < j)%nat →
     opportunities !! i = Some a → opportunities !! j = Some b →
     (similarity (opportunity_text a) (opportunity_text b) < similarity_threshold)%Q) →
  deduplicate_opportunities opportunities w = (Ok opportunities, w).
Proof.
  intros Hfar. destruct opportunities as [|opp rest]; [done|].
  unfold deduplicate_opportunities. rewrite bind_lift.
  rewrite (find_similarity_groups_all_apart (opp :: rest)) by done.
  apply (merge_loop_singletons (opp :: rest) []).
Qed.

(** *** What the analysis reads of an item *)

Lemma for_loop_ext {A S} (l : list A) (f g : S → A → M S) (s : S) (w : world) :
  (∀ s x w, f s x w = g s x w) → for_loop l f s w = for_loop l g s w.
Proof.
  intros Hfg. revert s w. induction l as [|x l IH]; intros s w; [done|].
  cbn [for_loop]. unfold mbind, M_bind. rewrite Hfg.
  destruct (g s x w) as [[s'|e] w']; [apply IH|done].
Qed.

(** X28. The analysis of an item reads its id, type, source file, content
    and customer, an empty customer counting as none: two items that agree
    on these get the same prompt and the same opportunities, whatever their
    metadata and timestamps. *)
Theorem analyze_single_item_ignores_metadata (item1 item2 : ContentItem.t) (w : world) :
  ContentItem.id item1 = ContentItem.id item2 →
  ContentItem.content_type item1 = ContentItem.content_type item2 →
  ContentItem.source_file item1 = ContentItem.source_file item2 →
  ContentItem.content item1 = ContentItem.content item2 →
  given_customer item1 = given_customer item2 →
  _build_analysis_prompt item1 = _build_analysis_prompt item2 ∧
  _analyze_single_item item1 w = _analyze_single_item item2 w.
Proof.
  intros Hid Htype Hfile Hcontent Hcustomer.
  assert (_build_analysis_prompt item1 = _build_analysis_prompt item2) as Hprompt.
  { unfold _build_analysis_prompt. rewrite Hid, Htype, Hfile, Hcontent.
    unfold given_customer in Hcustomer.
    destruct (ContentItem.customer_id item1) as [c1|],
             (ContentItem.customer_id item2) as [c2|]; [| | |done].
    - destruct (decide (c1 = "")), (decide (c2 = "")); by simplify_eq.
    - by destruct (decide (c1 = "")).
    - by destruct (decide (c2 = "")). }
  split; [done|].
  unfold _analyze_single_item, try_except. rewrite Hprompt.
  assert (∀ A (m1 m2 : M A), (∀ w0, m1 w0 = m2 w0) → ∀ (h : exn → M A),
            match m1 w with (Ok a, w') => (Ok a, w') | (Raise e, w') => h e w' end =
            match m2 w with (Ok a, w') => (Ok a, w') | (Raise e, w') => h e w' end)
    as Hsame by (by intros A m1 m2 ->).
  apply Hsame. intros w0.
  apply bind_ext. intros response_text w1.
  apply bind_ext. intros analysis_result w2.
  apply bind_ext. intros raw_records w3.
  apply bind_ext. intros records w4.
  apply for_loop_ext. intros opportunities opp_data w5.
  apply bind_cong. intros w6.
  unfold _create_opportunity_from_analysis, opportunity_id. by rewrite Hid.
Qed.

(** *** Descriptions that repeat *)

Lemma first_occurrences_elem_of {A} (key : A → string) (l : list A) (x : A) :
  x ∈ first_occurrences key l → x ∈ l.
Proof.
  revert x. induction l as [|y l IH]; intros x; [done|].
  cbn [first_occurrences]. intros [->|Hin]%elem_of_cons.
  - apply list_elem_of_here.
  - apply list_elem_of_filter in Hin as [_ Hin]. by apply list_elem_of_further, IH.
Qed.

Lemma first_occurrences_same_key {A} (key : A → string) (x : A) (l : list A) :
  Forall (λ y, key y = key x) l → first_occurrences key (x :: l) = [x].
Proof.
  intros Hall. cbn [first_occurrences]. f_equal.
  assert (Forall (λ y, key y = key x) (first_occurrences key l)) as Hkept.
  { apply Forall_forall. intros y Hy%first_occurrences_elem_of.
    by apply (proj1 (Forall_forall _ _) Hall). }
  induction Hkept as [|y l' Hy _ IH]; [done|].
  rewrite filter_cons_False; [done|]. by intros Hne.
Qed.

(** X29. Two or more descriptions that are the same once trimmed and put in
    lower case, and are not blank, merge into the first of them, trimmed. *)
Theorem merge_descriptions_collapses_repeats (first second : string) (rest : list string) :
  str_lower (str_strip first) ≠ "" →
  Forall (λ desc, str_lower (str_strip desc) = str_lower (str_strip first))
    (second :: rest) →
  _merge_descriptions (first :: second :: rest) = str_strip first.
Proof.
  intros Hfull Hsame. rewrite merge_descriptions_several.
  unfold distinct_descriptions.
  assert (filter (λ desc, description_key desc ≠ "") (first :: second :: rest) =
          first :: second :: rest) as ->.
  { assert (Forall (λ desc, description_key desc ≠ "") (first :: second :: rest)) as Hkept.
    { apply Forall_cons. split; [done|].
      eapply Forall_impl; [exact Hsame|]. intros desc Hdesc.
      unfold description_key. by rewrite Hdesc. }
    induction Hkept as [|desc l Hdesc _ IH]; [done|].
    rewrite filter_cons_True by done. by rewrite IH. }
  by rewrite first_occurrences_same_key.
Qed.

End Pipeline.

(** ** The properties on the concrete instances *)

(** C1, on an instance: the hypotheses hold for A, B, C under
    [sample_similarity] and the threshold 0.8. *)
Lemma similarity_groups_link_to_the_seed_witness :
  (8 # 10 <= sample_similarity (opportunity_text opp_A) (opportunity_text opp_B))%Q ∧
  (8 # 10 <= sample_similarity (opportunity_text opp_B) (opportunity_text opp_C))%Q ∧
  (sample_similarity (opportunity_text opp_A) (opportunity_text opp_C) < 8 # 10)%Q ∧
  _find_similarity_groups (8 # 10)
    (similarity_matrix_of sample_similarity (opportunity_text <$> [opp_A; opp_B; opp_C]))
    [opp_A; opp_B; opp_C]
    = Ok [[opp_A; opp_B]; [opp_C]] ∧
  _find_similarity_groups (8 # 10)
    (similarity_matrix_of sample_similarity (opportunity_text <$> [opp_A; opp_C; opp_B]))
    [opp_A; opp_C; opp_B]
    = Ok [[opp_A; opp_B]; [opp_C]].
Proof.
  assert (8 # 10 <= sample_similarity (opportunity_text opp_A) (opportunity_text opp_B))%Q
    as HAB by (by vm_compute).
  assert (8 # 10 <= sample_similarity (opportunity_text opp_B) (opportunity_text opp_C))%Q
    as HBC by (by vm_compute).
  assert (sample_similarity (opportunity_text opp_A) (opportunity_text opp_C) < 8 # 10)%Q
    as HAC by (by vm_compute).
  split_and!; [done..| |];
    apply (similarity_groups_link_to_the_seed sample_similarity (8 # 10)
             opp_A opp_B opp_C HAB HBC HAC).
Defined.

(** C1, as the specification words it, fails: with similarity(A,B) and
    similarity(B,C) at or above the threshold and similarity(A,C) below it,
    the order [A, B, C] does not put the three in one group. *)
Lemma similarity_groups_one_cluster_counterexample :
  (8 # 10 <= sample_similarity (opportunity_text opp_A) (opportunity_text opp_B))%Q ∧
  (8 # 10 <= sample_similarity (opportunity_text opp_B) (opportunity_text opp_C))%Q ∧
  (sample_similarity (opportunity_text opp_A) (opportunity_text opp_C) < 8 # 10)%Q ∧
  _find_similarity_groups (8 # 10)
    (similarity_matrix_of sample_similarity (opportunity_text <$> [opp_A; opp_B; opp_C]))
    [opp_A; opp_B; opp_C]
    ≠ Ok [[opp_A; opp_B; opp_C]].
Proof. split_and!; [by vm_compute..|]. vm_compute. discriminate. Qed.

(** C3, on an instance: the merge of A (frequency 2), B (1) and C (3) has
    frequency 6. *)
Lemma merged_frequency_is_sum_witness :
  [opp_A; opp_B; opp_C] ≠ [] ∧
  ∃ merged w',
    _merge_opportunity_group nat tick ascii_strip ascii_lower
      [opp_A; opp_B; opp_C] 7%nat = (Ok merged, w') ∧
    Opportunity.frequency merged = 6.
Proof.
  assert ([opp_A; opp_B; opp_C] ≠ []) as Hne by done.
  split; [done|].
  destruct (merged_frequency_is_sum nat tick ascii_strip ascii_lower
              [opp_A; opp_B; opp_C] 7%nat Hne) as (merged & w' & Hrun & Hsum & _).
  exists merged, w'. split; [exact Hrun|]. rewrite Hsum. reflexivity.
Defined.

(** C5, on an instance: the class as it stands, where the consolidated call
    fails on the missing method, on a batch of two tickets. *)
Lemma analyze_batch_falls_back_witness :
  (1 < length [ticket_17; ticket_18])%nat ∧
  missing_method [ticket_17; ticket_18] 0%nat = (Raise AttributeError, 0%nat) ∧
  ∃ per_item w',
    each_individually nat tick sample_backend sample_json_loads length_hash 3
      missing_method [ticket_17; ticket_18] 0%nat = (Ok per_item, w') ∧
    length per_item = length [ticket_17; ticket_18] ∧
    _analyze_batch nat tick sample_backend sample_json_loads length_hash 3
      missing_method [ticket_17; ticket_18] 0%nat = (Ok (concat per_item), w') ∧
    length (concat per_item) = sum_list (length <$> per_item).
Proof.
  assert (1 < length [ticket_17; ticket_18])%nat as Hlen by (simpl; lia).
  assert (missing_method [ticket_17; ticket_18] 0%nat =
          (Raise AttributeError, 0%nat)) as Hfail by reflexivity.
  split_and!; [done..|].
  exact (analyze_batch_falls_back_to_single_items nat tick sample_backend
           sample_json_loads length_hash 3 missing_method
           [ticket_17; ticket_18] 0%nat 0%nat AttributeError Hlen Hfail).
Defined.

(** The instance of C5 computed: each ticket yields the opportunity of the
    sample answer, and the batch yields both, in the order of the tickets. *)
Example analyze_batch_falls_back_computed :
  Opportunity.id <$>
    default [] (match _analyze_batch nat tick sample_backend sample_json_loads
                        length_hash 3 missing_method [ticket_17; ticket_18] 0%nat
                with (Ok opportunities, _) => Some opportunities | _ => None end)
  = ["opp_ticket_17_11"; "opp_ticket_18_11"].
Proof. by vm_compute. Qed.

(** C6, on an instance: A is 'high' and B is 'critical'. *)
Lemma merged_severity_is_maximum_witness :
  (2 ≤ length [opp_A; opp_B])%nat ∧
  Forall (λ opp, Opportunity.severity opp ∈ recognized) [opp_A; opp_B] ∧
  ∃ merged w',
    _merge_opportunity_group nat tick ascii_strip ascii_lower [opp_A; opp_B] 7%nat
      = (Ok merged, w') ∧
    (∃ member, member ∈ [opp_A; opp_B] ∧
       Opportunity.severity merged = Opportunity.severity member) ∧
    (∀ member, member ∈ [opp_A; opp_B] →
       severity_value (Opportunity.severity member) ≤
       severity_value (Opportunity.severity merged)) ∧
    (severity_value "low" < severity_value "medium" ∧
     severity_value "medium" < severity_value "high" ∧
     severity_value "high" < severity_value "critical") ∧
    (∀ permuted w2, permuted ≡ₚ [opp_A; opp_B] →
       ∃ merged2 w2',
         _merge_opportunity_group nat tick ascii_strip ascii_lower permuted w2
           = (Ok merged2, w2') ∧
         Opportunity.severity merged2 = Opportunity.severity merged).
Proof.
  assert (2 ≤ length [opp_A; opp_B])%nat as Hlen by (simpl; lia).
  assert (Forall (λ opp, Opportunity.severity opp ∈ recognized) [opp_A; opp_B])
    as Hall by (repeat constructor).
  split_and!; [done..|].
  exact (merged_severity_is_maximum nat tick ascii_strip ascii_lower
           [opp_A; opp_B] 7%nat Hlen Hall).
Defined.

(** The instance of C6 computed, in both orders. *)
Example merged_severity_computed :
  (Opportunity.severity <$>
     (_merge_opportunity_group nat tick ascii_strip ascii_lower [opp_A; opp_B] 7%nat).1,
   Opportunity.severity <$>
     (_merge_opportunity_group nat tick ascii_strip ascii_lower [opp_B; opp_A] 7%nat).1)
  = (Ok "critical", Ok "critical").
Proof. by vm_compute. Qed.

(** C10, on an instance: neither 'urgent' nor 'blocker' is a recognized
    severity, and the merge of C and D is 'low'. *)
Lemma unrecognized_severity_ranks_below_low_witness :
  (2 ≤ length [opp_C; opp_D])%nat ∧
  ∃ merged w',
    _merge_opportunity_group nat tick ascii_strip ascii_lower [opp_C; opp_D] 7%nat
      = (Ok merged, w') ∧
    Opportunity.severity merged = "low".
Proof.
  assert (2 ≤ length [opp_C; opp_D])%nat as Hlen by (simpl; lia).
  split; [done|].
  destruct (unrecognized_severity_ranks_below_low nat tick ascii_strip ascii_lower
              [opp_C; opp_D] 7%nat Hlen) as (merged & w' & Hrun & _ & _ & _ & Hlow).
  exists merged, w'. split; [exact Hrun|]. apply Hlow.
  repeat constructor; vm_compute; intros H; by repeat (inversion H as [|? ? ? H']; clear H; rename H' into H).
Defined.

(** C7, on an instance: the descriptions of A and B are distinct. *)
Lemma merged_description_joins_distinct_witness :
  (2 ≤ length [opp_A; opp_B])%nat ∧
  ∃ merged w',
    _merge_opportunity_group nat tick ascii_strip ascii_lower [opp_A; opp_B] 7%nat
      = (Ok merged, w') ∧
    Opportunity.description merged = "El cobro tarda demasiado | El pago tarda mucho".
Proof.
  assert (2 ≤ length [opp_A; opp_B])%nat as Hlen by (simpl; lia).
  split; [done|].
  destruct (merged_description_joins_distinct nat tick ascii_strip ascii_lower
              [opp_A; opp_B] 7%nat Hlen) as (merged & w' & Hrun & Hdesc & _).
  exists merged, w'. split; [exact Hrun|]. rewrite Hdesc. reflexivity.
Defined.

(** C7, as the specification words it, fails on a member whose description is empty:
    C has the empty description and B a description; deduplication leaves the
    two, whose join starts with the separator, and the program returns the
    description of B alone. *)
Lemma merged_description_blank_counterexample :
  ∃ merged w',
    _merge_opportunity_group nat tick ascii_strip ascii_lower [opp_C; opp_B] 7%nat
      = (Ok merged, w') ∧
    Opportunity.description merged = "El pago tarda mucho" ∧
    description_as_specified ascii_strip ascii_lower
      (Opportunity.description <$> [opp_C; opp_B]) = " | El pago tarda mucho" ∧
    Opportunity.description merged ≠
      description_as_specified ascii_strip ascii_lower
        (Opportunity.description <$> [opp_C; opp_B]).
Proof. eexists _, _. split_and!; [by vm_compute..|]. by vm_compute. Qed.



(** C2, seen from the caller: a response with a complete record followed by
    a record without a title. The [KeyError] of the second record leaves the
    loop of [_analyze_single_item], whose handler returns the empty list: the
    first record is lost with it. *)
Example analyze_single_item_loses_untitled_record :
  _analyze_single_item nat tick sample_backend untitled_json_loads length_hash 3
    ticket_17 0%nat = (Ok [], 2%nat).
Proof. by vm_compute. Qed.

(** The parser on three texts: a decodable region after some words, a text
    without braces, and a region that is not JSON. *)
Example parse_ai_response_computed :
  _parse_ai_response sample_json_loads ("Aquí está el análisis: " +:+ sample_json)
    = Ok (JDict {[ "opportunities" := JList [JDict {[ "title" := JStr "Cobro lento" ]}] ]}) ∧
  _parse_ai_response sample_json_loads "No encontré oportunidades." = Ok no_opportunities ∧
  _parse_ai_response sample_json_loads "Resultado: {oportunidades: ninguna} fin"
    = Ok no_opportunities.
Proof. split_and!; by vm_compute. Qed.

(** C4. The parser does not keep every failure of the decoder inside. The
    text [huge_integer_json] is, whole, the region from its first opening
    brace to its last closing brace; on it, whatever exception other than
    [JSONDecodeError] the decoder raises leaves the parser, and the decoder
    raises [ValueError], as [json.loads] does on an integer of more than 4300
    digits: the parser raises [ValueError] and returns no record. A text of
    seven digits in the same place is decoded and returned. *)
Theorem parse_ai_response_raises_on_huge_integer :
  re_search_braces huge_integer_json = Some huge_integer_json ∧
  (∀ json_loads e,
     json_loads huge_integer_json = Raise e → e ≠ JSONDecodeError →
     _parse_ai_response json_loads huge_integer_json = Raise e) ∧
  number_json_loads huge_integer_json = Raise ValueError ∧
  _parse_ai_response number_json_loads huge_integer_json = Raise ValueError ∧
  _parse_ai_response number_json_loads
    ("{" +:+ quoted "opportunities" +:+ ": 1234567}") =
    Ok (JDict {[ "opportunities" := JInt 1234567 ]}).
Proof.
  assert (re_search_braces huge_integer_json = Some huge_integer_json) as Hregion
    by (by vm_compute).
  split_and!; [done| |by vm_compute..].
  intros json_loads e Hraise Hother. unfold _parse_ai_response.
  rewrite Hregion, Hraise. by destruct e.
Qed.

(** ** Further properties on the concrete instances *)

(** X2, on an instance: the number that the record gives as severity is
    stored. *)
Lemma create_opportunity_stores_fields_verbatim_witness :
  odd_record !! "title" = Some (JStr "Cobro lento") ∧
  hashable (JStr "Cobro lento") ∧
  ∃ opp,
    _create_opportunity_from_analysis nat tick length_hash (JDict odd_record)
      ticket_17 None 0%nat = (Ok opp, 1%nat) ∧
    Opportunity.title opp = JStr "Cobro lento" ∧
    Opportunity.severity opp = JInt 7.
Proof.
  assert (odd_record !! "title" = Some (JStr "Cobro lento")) as Htitle by (by vm_compute).
  assert (hashable (JStr "Cobro lento")) as Hhash by exact I.
  split_and!; [done..|].
  destruct (create_opportunity_stores_fields_verbatim nat tick length_hash
              odd_record (JStr "Cobro lento") ticket_17 None 0%nat Htitle Hhash)
    as (opp & Hrun & Ht & _ & _ & Hsev & _).
  exists opp. split_and!; [exact Hrun|exact Ht|]. apply Hsev. by vm_compute.
Defined.

(** X3, on an instance: the sample answer holds one usable record. *)
Lemma analyze_single_item_one_opportunity_per_record_witness :
  sample_backend (_build_analysis_prompt 3 ticket_17) 0%nat =
    (Ok ("Aquí está el análisis: " +:+ sample_json), 0%nat) ∧
  _parse_ai_response sample_json_loads ("Aquí está el análisis: " +:+ sample_json) =
    Ok (JDict {[ "opportunities" := JList [JDict {[ "title" := JStr "Cobro lento" ]}] ]}) ∧
  forallb usable_record [JDict {[ "title" := JStr "Cobro lento" ]}] = true ∧
  ∃ opportunities w',
    _analyze_single_item nat tick sample_backend sample_json_loads length_hash 3
      ticket_17 0%nat = (Ok opportunities, w') ∧
    length opportunities = 1%nat.
Proof.
  assert (sample_backend (_build_analysis_prompt 3 ticket_17) 0%nat =
            (Ok ("Aquí está el análisis: " +:+ sample_json), 0%nat)) as Hanswer
    by reflexivity.
  assert (_parse_ai_response sample_json_loads
            ("Aquí está el análisis: " +:+ sample_json) =
          Ok (JDict {[ "opportunities" :=
                         JList [JDict {[ "title" := JStr "Cobro lento" ]}] ]}))
    as Hparse by (by vm_compute).
  assert (dict_get
            (JDict {[ "opportunities" :=
                        JList [JDict {[ "title" := JStr "Cobro lento" ]}] ]})
            "opportunities" (JList []) =
          Ok (JList [JDict {[ "title" := JStr "Cobro lento" ]}]))
    as Hget by (by vm_compute).
  assert (forallb usable_record [JDict {[ "title" := JStr "Cobro lento" ]}] = true)
    as Husable by (by vm_compute).
  split_and!; [done..|].
  destruct (analyze_single_item_one_opportunity_per_record nat tick sample_backend
              sample_json_loads length_hash 3 ticket_17 0%nat 0%nat _ _ _
              Hanswer Hparse Hget Husable)
    as (opportunities & w' & Hrun & Hlen & _).
  exists opportunities, w'. by split.
Defined.

(** X4, on an instance: the second record of the decoded answer has no
    title, and the first is lost with it. *)
Lemma analyze_single_item_all_or_nothing_witness :
  forallb usable_record
    [JDict {[ "title" := JStr "Cobro lento" ]};
     JDict {[ "description" := JStr "El cobro tarda demasiado" ]}] = false ∧
  ∃ w',
    _analyze_single_item nat tick sample_backend untitled_json_loads length_hash 3
      ticket_17 0%nat = (Ok [], w').
Proof.
  assert (sample_backend (_build_analysis_prompt 3 ticket_17) 0%nat =
            (Ok ("Aquí está el análisis: " +:+ sample_json), 0%nat)) as Hanswer
    by reflexivity.
  assert (_parse_ai_response untitled_json_loads
            ("Aquí está el análisis: " +:+ sample_json) =
          Ok (JDict {[ "opportunities" :=
                         JList [JDict {[ "title" := JStr "Cobro lento" ]};
                                JDict {[ "description" :=
                                           JStr "El cobro tarda demasiado" ]}] ]}))
    as Hparse by (by vm_compute).
  assert (dict_get
            (JDict {[ "opportunities" :=
                        JList [JDict {[ "title" := JStr "Cobro lento" ]};
                               JDict {[ "description" :=
                                          JStr "El cobro tarda demasiado" ]}] ]})
            "opportunities" (JList []) =
          Ok (JList [JDict {[ "title" := JStr "Cobro lento" ]};
                     JDict {[ "description" := JStr "El cobro tarda demasiado" ]}]))
    as Hget by (by vm_compute).
  assert (forallb usable_record
            [JDict {[ "title" := JStr "Cobro lento" ]};
             JDict {[ "description" := JStr "El cobro tarda demasiado" ]}] = false)
    as Hrefused by (by vm_compute).
  split; [done|].
  exact (analyze_single_item_all_or_nothing nat tick sample_backend
           untitled_json_loads length_hash 3 ticket_17 0%nat 0%nat _ _ _
           Hanswer Hparse Hget Hrefused).
Defined.

(** X8, on an instance: three tickets in batches of two. *)
Lemma batches_partition_the_items_witness :
  0 < 2 ∧
  batches_of 2 [ticket_17; ticket_18; ticket_17] =
    [[ticket_17; ticket_18]; [ticket_17]] ∧
  concat (batches_of 2 [ticket_17; ticket_18; ticket_17]) =
    [ticket_17; ticket_18; ticket_17].
Proof.
  assert (0 < 2) as Hsize by lia.
  split_and!; [done|by vm_compute|].
  apply (batches_partition_the_items 2 [ticket_17; ticket_18; ticket_17] Hsize).
Defined.

(** X9, on an instance: three tickets in batches of two, without callback. *)
Lemma analyze_content_items_runs_the_batches_witness :
  0 < 2 ∧
  analyze_content_items nat tick sample_backend sample_json_loads length_hash 3
    missing_method 2 500 [ticket_17; ticket_18; ticket_17] None 0%nat =
  as_outcome nat
    (run_batches nat tick sample_backend sample_json_loads length_hash 3
       missing_method None 1 2 [[ticket_17; ticket_18]; [ticket_17]] 0%nat).
Proof.
  assert (0 < 2) as Hsize by lia.
  split; [done|].
  exact (analyze_content_items_runs_the_batches nat tick sample_backend
           sample_json_loads length_hash 3 missing_method 2 500
           [ticket_17; ticket_18; ticket_17] None 0%nat Hsize).
Defined.

(** X10, on an instance: a batch size of 0 and an empty list. *)
Lemma analyze_content_items_batch_size_zero_witness :
  analyze_content_items nat tick sample_backend sample_json_loads length_hash 3
    missing_method 0 500 [] None 0%nat = (inr ZeroDivisionError, 0%nat).
Proof.
  exact (analyze_content_items_batch_size_zero nat tick sample_backend
           sample_json_loads length_hash 3 missing_method 0 500 [] None 0%nat
           eq_refl).
Defined.

(** X11, on an instance: a batch size of -1. *)
Lemma analyze_content_items_negative_batch_size_witness :
  -1 < 0 ∧
  analyze_content_items nat tick sample_backend sample_json_loads length_hash 3
    missing_method (-1) 500 [ticket_17; ticket_18] None 0%nat = (inl [], 0%nat).
Proof.
  assert (-1 < 0) as Hsize by lia.
  split; [done|].
  exact (analyze_content_items_negative_batch_size nat tick sample_backend
           sample_json_loads length_hash 3 missing_method (-1) 500
           [ticket_17; ticket_18] None 0%nat Hsize).
Defined.

(** X12, on an instance: two tickets under a cap of one. *)
Lemma analyze_content_items_ignores_items_over_the_cap_witness :
  0 ≤ 1 < Z.of_nat (length [ticket_17; ticket_18]) ∧
  analyze_content_items nat tick sample_backend sample_json_loads length_hash 3
    missing_method 2 1 [ticket_17; ticket_18] None 0%nat =
  analyze_content_items nat tick sample_backend sample_json_loads length_hash 3
    missing_method 2 1 [ticket_17] None 0%nat.
Proof.
  assert (0 ≤ 1 < Z.of_nat (length [ticket_17; ticket_18])) as Hcap by (simpl; lia).
  split; [done|].
  exact (analyze_content_items_ignores_items_over_the_cap nat tick sample_backend
           sample_json_loads length_hash 3 missing_method 2 1
           [ticket_17; ticket_18] None 0%nat Hcap).
Defined.

(** X13, on an instance: the class as it stands, on three tickets in
    batches of two. *)
Lemma analyze_content_items_item_by_item_witness :
  0 < 2 ∧
  (∀ items w0, ∃ e, missing_method items w0 = (Raise e, w0)) ∧
  ∃ per_item w',
    each_individually nat tick sample_backend sample_json_loads length_hash 3
      missing_method [ticket_17; ticket_18; ticket_17] 0%nat = (Ok per_item, w') ∧
    analyze_content_items nat tick sample_backend sample_json_loads length_hash 3
      missing_method 2 500 [ticket_17; ticket_18; ticket_17] None 0%nat =
      (inl (concat per_item), w').
Proof.
  assert (0 < 2) as Hsize by lia.
  assert (∀ items w0, ∃ e, missing_method items w0 = (Raise e, w0)) as Hmissing
    by (intros items w0; by exists AttributeError).
  split_and!; [done..|].
  exact (analyze_content_items_item_by_item nat tick sample_backend
           sample_json_loads length_hash 3 missing_method 2 500
           [ticket_17; ticket_18; ticket_17] 0%nat Hsize Hmissing).
Defined.

(** X14, on an instance: a callback that fails, on one ticket. *)
Lemma analyze_content_items_callback_failure_witness :
  0 < 2 ∧
  kept_items 500 [ticket_17] ≠ [] ∧
  ∃ w',
    analyze_content_items nat tick sample_backend sample_json_loads length_hash 3
      missing_method 2 500 [ticket_17] (Some failing_callback) 0%nat =
      (inr (Exception TypeError), w').
Proof.
  assert (0 < 2) as Hsize by lia.
  assert (kept_items 500 [ticket_17] ≠ []) as Hkept by (by vm_compute).
  split_and!; [done..|].
  exact (analyze_content_items_callback_failure nat tick sample_backend
           sample_json_loads length_hash 3 missing_method 2 500 [ticket_17]
           failing_callback TypeError 0%nat Hsize Hkept (λ _ _ _, eq_refl)).
Defined.

(** A and C are below the threshold 0.8 to each other. *)
Lemma opp_A_opp_C_apart (i j : nat) (a b : Opp) :
  (i < j)%nat → [opp_A; opp_C] !! i = Some a → [opp_A; opp_C] !! j = Some b →
  (sample_similarity (opportunity_text a) (opportunity_text b) < 8 # 10)%Q.
Proof.
  intros Hij Ha Hb.
  destruct i as [|[|i]], j as [|[|j]]; simplify_eq/=; try lia.
  by vm_compute.
Qed.

(** X18, on an instance: A and C, each in a group of its own. *)
Lemma similarity_groups_all_apart_witness :
  _find_similarity_groups (8 # 10)
    (similarity_matrix_of sample_similarity (opportunity_text <$> [opp_A; opp_C]))
    [opp_A; opp_C] = Ok [[opp_A]; [opp_C]].
Proof.
  exact (similarity_groups_all_apart sample_similarity (8 # 10) [opp_A; opp_C]
           opp_A_opp_C_apart).
Defined.

(** X20, on an instance: A and B share their source and their keyword. *)
Lemma merged_sources_and_keywords_are_the_members_witness :
  [opp_A; opp_B] ≠ [] ∧
  ∃ merged w',
    _merge_opportunity_group nat tick ascii_strip ascii_lower [opp_A; opp_B] 7%nat
      = (Ok merged, w') ∧
    "ticket_17" ∈ Opportunity.sources merged ∧
    "cobro" ∈ Opportunity.keywords merged.
Proof.
  assert ([opp_A; opp_B] ≠ []) as Hne by done.
  split; [done|].
  destruct (merged_sources_and_keywords_are_the_members nat tick ascii_strip
              ascii_lower [opp_A; opp_B] 7%nat Hne)
    as (merged & w' & Hrun & Hsources & Hkeywords).
  exists merged, w'. split_and!; [exact Hrun| |].
  - apply Hsources. exists opp_A. split; [apply list_elem_of_here|apply list_elem_of_here].
  - apply Hkeywords. exists opp_A. split; [apply list_elem_of_here|apply list_elem_of_here].
Defined.

(** X22, on an instance: A and B were both created at 100. *)
Lemma merged_dates_are_the_earliest_witness :
  [opp_A; opp_B] ≠ [] ∧
  ∃ merged w',
    _merge_opportunity_group nat tick ascii_strip ascii_lower [opp_A; opp_B] 7%nat
      = (Ok merged, w') ∧
    Opportunity.created_at merged ≤ Opportunity.created_at opp_B.
Proof.
  assert ([opp_A; opp_B] ≠ []) as Hne by done.
  split; [done|].
  destruct (merged_dates_are_the_earliest nat tick ascii_strip ascii_lower
              [opp_A; opp_B] 7%nat Hne)
    as (merged & w' & Hrun & _ & Hcreated & _).
  exists merged, w'. split; [exact Hrun|].
  apply Forall_cons in Hcreated as [_ Hcreated].
  by apply Forall_cons in Hcreated as [HB _].
Defined.

(** X27, on an instance: A and C come back as they are, at the same
    reading of the clock. *)
Lemma deduplicate_opportunities_leaves_distinct_ones_witness :
  deduplicate_opportunities nat tick ascii_strip ascii_lower sample_similarity (8 # 10)
    [opp_A; opp_C] 7%nat = (Ok [opp_A; opp_C], 7%nat).
Proof.
  exact (deduplicate_opportunities_leaves_distinct_ones nat tick ascii_strip
           ascii_lower sample_similarity (8 # 10) [opp_A; opp_C] 7%nat
           opp_A_opp_C_apart).
Defined.

(** X28, on an instance: ticket 18 extracted twice. *)
Lemma analyze_single_item_ignores_metadata_witness :
  given_customer ticket_18 = given_customer ticket_18_again ∧
  ContentItem.metadata ticket_18 ≠ ContentItem.metadata ticket_18_again ∧
  _analyze_single_item nat tick sample_backend sample_json_loads length_hash 3
    ticket_18 0%nat =
  _analyze_single_item nat tick sample_backend sample_json_loads length_hash 3
    ticket_18_again 0%nat.
Proof.
  assert (given_customer ticket_18 = given_customer ticket_18_again) as Hcustomer
    by reflexivity.
  split_and!; [done|by vm_compute|].
  apply (analyze_single_item_ignores_metadata nat tick sample_backend
           sample_json_loads length_hash 3 ticket_18 ticket_18_again 0%nat
           eq_refl eq_refl eq_refl eq_refl Hcustomer).
Defined.

(** X29, on an instance: the same description with other blanks and
    capitals. *)
Lemma merge_descriptions_collapses_repeats_witness :
  ascii_lower (ascii_strip "  El cobro TARDA ") ≠ "" ∧
  Forall (λ desc, ascii_lower (ascii_strip desc) =
                  ascii_lower (ascii_strip "  El cobro TARDA "))
    ["el cobro tarda"] ∧
  _merge_descriptions ascii_strip ascii_lower ["  El cobro TARDA "; "el cobro tarda"] =
    "El cobro TARDA".
Proof.
  assert (ascii_lower (ascii_strip "  El cobro TARDA ") ≠ "") as Hfull by (by vm_compute).
  assert (Forall (λ desc, ascii_lower (ascii_strip desc) =
                          ascii_lower (ascii_strip "  El cobro TARDA "))
            ["el cobro tarda"]) as Hsame by (by repeat constructor).
  split_and!; [done..|].
  exact (merge_descriptions_collapses_repeats ascii_strip ascii_lower
           "  El cobro TARDA " "el cobro tarda" [] Hfull Hsame).
Defined.
